(** * qasphere-csv: a shallow embedding of [qascsv.go] and its properties

    The Go package [qascsv] validates test-case records, accumulates them in
    a map keyed by folder path and projects the accumulated records onto a
    CSV grid.  This development embeds the package as Rocq functions (state
    passing for the receiver of type [QASphereCSV], a sum type for results
    of the form value-or-error, an explicit argument for the order in which
    [range] visits a map) and proves the claims of the library's
    specification about them.

    The file has these parts, in order:
    - the parts of the Go runtime and standard library the package calls:
      string comparison, [slices.Sort], [strings.Join], [strconv],
      [fmt.Sprintf], [unicode/utf8], error values;
    - the data model of the package, and the data of its tests;
    - inside [Section Package], whose variables are the library functions
      that are not unfolded: the tag engine of go-playground/validator for
      the tags of [qascsv.go], the encoders of [encoding/json] and
      [encoding/csv], the operations of the package under the names they
      have in the source, and the vocabulary of the specification;
    - the lemmas, and the theorems of the claims C1 to C10;
    - the theorems applied to concrete records, and the repository's tests
      run on the model.

    [WriteCSVToFile] is modelled over a file system given as a map from
    names to contents, with the outcome of the operating system's calls as
    an argument. *)

From Stdlib Require Import Ascii String ZArith NArith Lia Sorted Permutation.
From stdpp Require Import base gmap strings list sorting pretty.

#[local] Set Warnings "-clear-no-such-hyp".

(* ===================================================================== *)
(** * Go runtime and standard library                                    *)
(* ===================================================================== *)

(** A Go [string] is an immutable sequence of bytes: [string], whose
    characters are the 256 values of [ascii]. *)

Definition byte_val (c : ascii) : N := N_of_ascii c.

(** The double quote, as a byte. *)
Definition dquote : ascii := "034"%char.

(** ** Comparison of strings: the operators [<] and [==] of the language.
    Strings are compared byte by byte; a proper prefix is smaller. *)
Fixpoint string_cmp (a b : string) : comparison :=
  match a, b with
  | "", "" => Eq
  | "", String _ _ => Lt
  | String _ _, "" => Gt
  | String x a', String y b' =>
      match (byte_val x ?= byte_val y)%N with
      | Eq => string_cmp a' b'
      | c => c
      end
  end.

Definition string_lt (a b : string) : Prop := string_cmp a b = Lt.
Definition string_le (a b : string) : Prop := string_cmp a b <> Gt.

#[global] Instance string_le_dec : RelDecision string_le.
Proof. intros a b. unfold string_le. apply _. Defined.

#[global] Instance string_lt_dec : RelDecision string_lt.
Proof. intros a b. unfold string_lt. apply _. Defined.

(** ** [slices.Sort] on a slice of strings: the sorted rearrangement of the
    slice for [<].  The order is total, so every sorting algorithm returns
    the same slice ([sort_unique] below); merge sort stands for the
    library's pattern-defeating quicksort. *)
Definition slices_Sort (l : list string) : list string :=
  merge_sort string_le l.

(** ** [strings.Join] *)
Fixpoint strings_Join (elems : list string) (sep : string) : string :=
  match elems with
  | [] => ""
  | [e] => e
  | e :: rest => e +:+ sep +:+ strings_Join rest sep
  end.

(** [strings.IndexByte(s, c) >= 0] *)
Fixpoint contains_byte (s : string) (c : ascii) : bool :=
  match s with
  | "" => false
  | String x s' => if decide (x = c) then true else contains_byte s' c
  end.

(** [strings.ContainsAny(s, chars)] for a set [chars] of ASCII characters:
    some byte of [s] is one of [chars]. *)
Fixpoint strings_ContainsAny (s chars : string) : bool :=
  match s with
  | "" => false
  | String x s' => contains_byte chars x || strings_ContainsAny s' chars
  end.

(** ** [strconv] *)
Definition strconv_FormatBool (b : bool) : string :=
  if b then "true" else "false".

(** [strconv.FormatInt(n, 10)]: decimal digits, a leading [-] when negative. *)
Definition strconv_FormatInt (n : Z) : string := pretty n.

(** ** [fmt.Sprintf], for the verbs [%s], [%d] and [%%]. *)
Inductive fmt_arg : Type :=
| ArgString (s : string)
| ArgInt (n : Z).

Definition fmt_type_value (a : fmt_arg) : string :=
  match a with
  | ArgString s => "string=" +:+ s
  | ArgInt n => "int=" +:+ strconv_FormatInt n
  end.

(** One operand under one verb; a verb that does not fit the operand's type
    prints [%!verb(type=value)]. *)
Definition fmt_verb (verb : ascii) (a : fmt_arg) : string :=
  match verb, a with
  | "s"%char, ArgString s => s
  | "d"%char, ArgInt n => strconv_FormatInt n
  | _, _ => "%!" +:+ String verb ("(" +:+ fmt_type_value a +:+ ")")
  end.

Definition fmt_extra (args : list fmt_arg) : string :=
  match args with
  | [] => ""
  | _ => "%!(EXTRA " +:+ strings_Join (fmt_type_value <$> args) ", " +:+ ")"
  end.

Fixpoint Sprintf (format : string) (args : list fmt_arg) : string :=
  match format with
  | "" => fmt_extra args
  | String "%" "" => "%!(NOVERB)" +:+ fmt_extra args
  | String "%" (String "%" rest) => String "%" (Sprintf rest args)
  | String "%" (String verb rest) =>
      match args with
      | a :: args' => fmt_verb verb a +:+ Sprintf rest args'
      | [] => "%!" +:+ String verb ("(MISSING)" +:+ Sprintf rest [])
      end
  | String c rest => String c (Sprintf rest args)
  end.

(** ** [unicode/utf8] *)

(** The table [first] of the package: for a leading byte, the length of the
    encoding it starts and the range accepted for the second byte; [None]
    for ASCII and for bytes that start no encoding (both advance by one). *)
Definition utf8_first (c : N) : option (nat * N * N) :=
  (if c <? 0xC2 then None
   else if c <? 0xE0 then Some (2%nat, 0x80, 0xBF)
   else if c =? 0xE0 then Some (3%nat, 0xA0, 0xBF)
   else if c <? 0xED then Some (3%nat, 0x80, 0xBF)
   else if c =? 0xED then Some (3%nat, 0x80, 0x9F)
   else if c <? 0xF0 then Some (3%nat, 0x80, 0xBF)
   else if c =? 0xF0 then Some (4%nat, 0x90, 0xBF)
   else if c <? 0xF4 then Some (4%nat, 0x80, 0xBF)
   else if c =? 0xF4 then Some (4%nat, 0x80, 0x8F)
   else None)%N.

Definition in_range (c : ascii) (lo hi : N) : bool :=
  ((lo <=? byte_val c) && (byte_val c <=? hi))%N.

(** A continuation byte, [locb <= c <= hicb]. *)
Definition is_cont (c : ascii) : bool := in_range c 0x80 0xBF.

(** [utf8.RuneCountInString]: the number of runes in [s]; a byte that is not
    part of a well-formed encoding counts as one rune of width one. *)
Fixpoint RuneCountInString (s : string) : nat :=
  match s with
  | "" => 0
  | String c s1 =>
      S (match utf8_first (byte_val c), s1 with
         | Some (2, lo, hi), String c1 s2 =>
             if in_range c1 lo hi then RuneCountInString s2
             else RuneCountInString s1
         | Some (3, lo, hi), String c1 (String c2 s3) =>
             if in_range c1 lo hi && is_cont c2 then RuneCountInString s3
             else RuneCountInString s1
         | Some (4, lo, hi), String c1 (String c2 (String c3 s4)) =>
             if in_range c1 lo hi && is_cont c2 && is_cont c3
             then RuneCountInString s4
             else RuneCountInString s1
         | _, _ => RuneCountInString s1
         end)
  end.

(** [unicode.IsSpace(r)] for [r, _ := utf8.DecodeRuneInString(s)]: the first
    rune of [s] is white space.  The white-space runes are U+0009..U+000D,
    U+0020, U+0085, U+00A0, U+1680, U+2000..U+200A, U+2028, U+2029, U+202F,
    U+205F and U+3000; a rune has one well-formed encoding, so the test
    reads the leading bytes. *)
Definition first_rune_IsSpace (s : string) : bool :=
  match byte_val <$> list_ascii_of_string s with
  | (0x09 | 0x0A | 0x0B | 0x0C | 0x0D | 0x20)%N :: _ => true
  | 0xC2%N :: (0x85 | 0xA0)%N :: _ => true
  | 0xE1%N :: 0x9A%N :: 0x80%N :: _ => true
  | 0xE2%N :: 0x80%N :: c :: _ =>
      ((0x80 <=? c) && (c <=? 0x8A) || (c =? 0xA8) || (c =? 0xA9) || (c =? 0xAF))%N
  | 0xE2%N :: 0x81%N :: 0x9F%N :: _ => true
  | 0xE3%N :: 0x80%N :: 0x80%N :: _ => true
  | _ => false
  end.

(** ** Errors *)

(** One failed field of go-playground/validator: [Namespace()], [Field()]
    and [Tag()] of its [FieldError]. *)
Record FieldError : Type := mkFieldError {
  Namespace : string;
  Field : string;
  Tag : string
}.

#[global] Instance FieldError_eq_dec : EqDecision FieldError.
Proof. solve_decision. Defined.

(** The error values the package builds or passes on. *)
#[warnings="-register-all"]
Inductive error : Type :=
| ValidationErrors (errs : list FieldError)   (* validator.ValidationErrors *)
| Wrap (cause : error) (msg : string)         (* errors.Wrap, errors.Wrapf *)
| MultiError (errs : list error)              (* *multierror.Error *)
| UnsupportedTypeError (kind : string).       (* *json.UnsupportedTypeError *)

(** [multierror.Append(err, e)] for [err] nil or a [*multierror.Error]. *)
Definition multierror_Append (err : option error) (e : error) : option error :=
  match err with
  | None => Some (MultiError [e])
  | Some (MultiError es) => Some (MultiError (es ++ [e]))
  | Some other => Some (MultiError [other; e])
  end.

(** [(T, error)] results. *)
Definition result (A : Type) : Type := A + error.
Abbreviation Ok a := (inl a) (only parsing).
Abbreviation Err e := (inr e) (only parsing).

Definition bind {A B} (r : result A) (k : A -> result B) : result B :=
  match r with
  | inl a => k a
  | inr e => inr e
  end.

Notation "'do' x <- r ; k" := (bind r (fun x => k))
  (at level 10, x name, r at level 100, k at level 200,
   format "'[v' 'do'  x  <-  r ; '/' k ']'").

(** The fields of [net/url.URL] that the validator reads. *)
Record URL : Type := mkURL {
  URL_Scheme : string;
  URL_Host : string
}.

(* ===================================================================== *)
(** * The package [qascsv]: data model                                   *)
(* ===================================================================== *)

(** [type Priority string] and its three constants. *)
Definition Priority : Type := string.
Definition PriorityLow : Priority := "low".
Definition PriorityMedium : Priority := "medium".
Definition PriorityHigh : Priority := "high".

Record Requirement : Type := mkRequirement {
  Requirement_Title : string;   (* validate:"required_without=URL,max=255" *)
  Requirement_URL : string      (* validate:"required_without=Title,omitempty,http_url,max=255" *)
}.

Record Link : Type := mkLink {
  Link_Title : string;          (* validate:"required,max=255" *)
  Link_URL : string             (* validate:"required,http_url,max=255" *)
}.

Record File : Type := mkFile {
  File_Name : string;           (* validate:"required" json:"file_name" *)
  File_ID : string;             (* validate:"required_without=URL" json:"id,omitempty" *)
  File_URL : string;            (* validate:"required_without=ID,omitempty,http_url" json:"url,omitempty" *)
  File_MimeType : string;       (* json:"mime_type" *)
  File_Size : Z                 (* int64, json:"size" *)
}.

Record Step : Type := mkStep {
  Step_Action : string;
  Step_Expected : string
}.

#[global] Instance Step_inhabited : Inhabited Step := populate (mkStep "" "").

(** A slice is a [list] (the package never tells a nil slice from an empty
    one); the pointer [*Requirement] is an [option]. *)
Record TestCase : Type := mkTestCase {
  TestCase_Title : string;             (* validate:"required,max=255" *)
  TestCase_LegacyID : string;          (* validate:"max=255" *)
  TestCase_Folder : list string;       (* validate:"min=1,dive,required,max=127,excludesall=/" *)
  TestCase_Priority : Priority;        (* validate:"required,oneof=low medium high" *)
  TestCase_Tags : list string;         (* validate:"dive,required,max=255" *)
  TestCase_Preconditions : string;
  TestCase_Steps : list Step;
  TestCase_Requirement : option Requirement;
  TestCase_Files : list File;          (* validate:"dive" *)
  TestCase_Links : list Link;          (* validate:"dive" *)
  TestCase_Draft : bool
}.

(** The receiver.  The counters are Go [int]s that hold a number of records
    and the length of a slice, all of them in memory at once, so they stay
    far below [2^63]: they are natural numbers here.  The field [validate]
    holds the validator, which has no state of its own. *)
Record QASphereCSV : Type := mkQASphereCSV {
  folderTCaseMap : gmap string (list TestCase);
  numTCases : nat;
  maxSteps : nat
}.

Definition staticColumns : list string :=
  ["Folder"; "Name"; "Legacy ID"; "Draft"; "Priority"; "Tags"; "Requirements";
   "Links"; "Files"; "Preconditions"].

(** The record of the specification's scenario: title [T1], folder [root],
    priority [high], every other field at its zero value. *)
Definition T1_record : TestCase :=
  {| TestCase_Title := "T1"; TestCase_LegacyID := "";
     TestCase_Folder := ["root"]; TestCase_Priority := PriorityHigh;
     TestCase_Tags := []; TestCase_Preconditions := "";
     TestCase_Steps := []; TestCase_Requirement := None;
     TestCase_Files := []; TestCase_Links := []; TestCase_Draft := false |}.

(** A line feed. *)
Definition LF : string := String "010"%char "".

(* ===================================================================== *)
(** * Stand-ins for the library parameters, and the repository's test data *)
(* ===================================================================== *)

(** The functions of the standard library that the package's model takes as
    parameters ([net/url.Parse], [strings.ToLower], the validator's [isURL]
    and the string encoder of [encoding/json]) are given here for plain
    inputs: ASCII text, and URLs of the form [scheme://host/path].  They
    serve to run the model on the data of [qacsv_test.go] and to apply the
    theorems to concrete records. *)

Definition ascii_lower (c : ascii) : ascii :=
  if ((65 <=? byte_val c) && (byte_val c <=? 90))%N
  then ascii_of_N (byte_val c + 32)
  else c.

Fixpoint ascii_ToLower (s : string) : string :=
  match s with
  | "" => ""
  | String c rest => String (ascii_lower c) (ascii_ToLower rest)
  end.

(** [scheme://host/path]: the scheme is what stands before the first
    [://], the host what follows up to the next [/]. *)
Definition simple_url_Parse (s : string) : option URL :=
  match String.index 0 "://" s with
  | Some i =>
      let rest := String.substring (i + 3) (String.length s - (i + 3)) s in
      let host :=
        match String.index 0 "/" rest with
        | Some j => String.substring 0 j rest
        | None => rest
        end in
      Some (mkURL (String.substring 0 i s) host)
  | None => Some (mkURL "" "")
  end.

Definition simple_isURL (s : string) : bool :=
  match simple_url_Parse (ascii_ToLower s) with
  | Some u => negb (String.eqb (URL_Scheme u) "") && negb (String.eqb (URL_Host u) "")
  | None => false
  end.

Definition hex_digit (n : N) : ascii :=
  default "0"%char (String.get (N.to_nat n) "0123456789abcdef").

(** The JSON string literal of ASCII text: quotes and backslashes escaped
    with a backslash, line feed, carriage return and tab by their letter,
    the other control characters and (HTML escaping) [<], [>], [&] as
    [\u00XX]. *)
Definition json_escape_byte (c : ascii) : string :=
  if decide (c = dquote) then String "\"%char (String dquote "")
  else if decide (c = "\"%char) then "\\"
  else if decide (c = "010"%char) then "\n"
  else if decide (c = "013"%char) then "\r"
  else if decide (c = "009"%char) then "\t"
  else if ((byte_val c <? 32) || (byte_val c =? 60) || (byte_val c =? 62)
           || (byte_val c =? 38))%N
  then "\u00" +:+ String (hex_digit (byte_val c / 16)) (String (hex_digit (byte_val c mod 16)) "")
  else String c "".

Fixpoint json_escape (s : string) : string :=
  match s with
  | "" => ""
  | String c rest => json_escape_byte c +:+ json_escape rest
  end.

Definition ascii_json_string (s : string) : string :=
  String dquote (json_escape s +:+ String dquote "").

(** Text with [|] standing for the double quote. *)
Fixpoint bars (s : string) : string :=
  match s with
  | "" => ""
  | String c rest => String (if decide (c = "|"%char) then dquote else c) (bars rest)
  end.

(** [successTestCases] of [qacsv_test.go]. *)
Definition special : string := bars ".,<>/@$%||''*&()[]{}+-`!~;".

Definition file_1_url : File := mkFile "file-1.csv" "" "http://file1" "text/csv" 10.
Definition file_1_id : File := mkFile "file-1.csv" "file-id" "" "text/csv" 10.

Definition successTestCases : list TestCase :=
  [ {| TestCase_Title := "tc-with-all-fields"; TestCase_LegacyID := "legacy-id";
       TestCase_Folder := ["root"; "child"]; TestCase_Priority := "high";
       TestCase_Tags := ["tag1"; "tag2"]; TestCase_Preconditions := "preconditions";
       TestCase_Steps := [mkStep "action-1" "expected-1"; mkStep "action-2" "expected-2"];
       TestCase_Requirement := Some (mkRequirement "req1" "http://req1");
       TestCase_Files := [file_1_url; file_1_id];
       TestCase_Links := [mkLink "link-1" "http://link1"; mkLink "link-2" "http://link2"];
       TestCase_Draft := false |};
    {| TestCase_Title := "tc-with-minimal-fields"; TestCase_LegacyID := "";
       TestCase_Folder := ["root"]; TestCase_Priority := "high";
       TestCase_Tags := []; TestCase_Preconditions := "";
       TestCase_Steps := []; TestCase_Requirement := None;
       TestCase_Files := []; TestCase_Links := []; TestCase_Draft := false |};
    {| TestCase_Title := "tc-with-special-chars" +:+ special;
       TestCase_LegacyID := "legacy-id";
       TestCase_Folder := ["root"; "child"]; TestCase_Priority := "high";
       TestCase_Tags := ["tag1" +:+ special];
       TestCase_Preconditions := "preconditions" +:+ special;
       TestCase_Steps := [mkStep ("action" +:+ special) ("expected" +:+ special)];
       TestCase_Requirement := Some (mkRequirement ("req" +:+ special) "");
       TestCase_Files := [file_1_url];
       TestCase_Links := [mkLink ("link-1" +:+ special) "http://link1"];
       TestCase_Draft := false |};
    {| TestCase_Title := "tc-with-partial-fields"; TestCase_LegacyID := "";
       TestCase_Folder := ["root"]; TestCase_Priority := "low";
       TestCase_Tags := []; TestCase_Preconditions := "";
       TestCase_Steps := [mkStep "action-1" ""; mkStep "" "expected-2"];
       TestCase_Requirement := Some (mkRequirement "" "http://req1");
       TestCase_Files := [file_1_url; file_1_id];
       TestCase_Links := []; TestCase_Draft := true |} ].

(** [successTestCasesCSV], line by line. *)
Definition successTestCasesCSV : string :=
  strings_Join
    [ "Folder,Name,Legacy ID,Draft,Priority,Tags,Requirements,Links,Files,Preconditions,Step 1,Expected 1,Step 2,Expected 2";
      "root,tc-with-minimal-fields,,false,high,,,,,,,,,";
      bars "root,tc-with-partial-fields,,true,low,,[](http://req1),,|[{||file_name||:||file-1.csv||,||url||:||http://file1||,||mime_type||:||text/csv||,||size||:10},{||file_name||:||file-1.csv||,||id||:||file-id||,||mime_type||:||text/csv||,||size||:10}]|,,action-1,,,expected-2";
      bars "root/child,tc-with-all-fields,legacy-id,false,high,|tag1,tag2|,[req1](http://req1),|[link-1](http://link1),[link-2](http://link2)|,|[{||file_name||:||file-1.csv||,||url||:||http://file1||,||mime_type||:||text/csv||,||size||:10},{||file_name||:||file-1.csv||,||id||:||file-id||,||mime_type||:||text/csv||,||size||:10}]|,preconditions,action-1,expected-1,action-2,expected-2";
      bars "root/child,|tc-with-special-chars.,<>/@$%||||''*&()[]{}+-`!~;|,legacy-id,false,high,|tag1.,<>/@$%||||''*&()[]{}+-`!~;|,|[req.,<>/@$%||||''*&()[]{}+-`!~;]()|,|[link-1.,<>/@$%||||''*&()[]{}+-`!~;](http://link1)|,|[{||file_name||:||file-1.csv||,||url||:||http://file1||,||mime_type||:||text/csv||,||size||:10}]|,|preconditions.,<>/@$%||||''*&()[]{}+-`!~;|,|action.,<>/@$%||||''*&()[]{}+-`!~;|,|expected.,<>/@$%||||''*&()[]{}+-`!~;|,,";
      "" ]
    LF.

(** [failureTestCases] of [qacsv_test.go]. *)
Definition minimal (title : string) : TestCase :=
  {| TestCase_Title := title; TestCase_LegacyID := "";
     TestCase_Folder := ["root"]; TestCase_Priority := "high";
     TestCase_Tags := []; TestCase_Preconditions := "";
     TestCase_Steps := []; TestCase_Requirement := None;
     TestCase_Files := []; TestCase_Links := []; TestCase_Draft := false |}.

Definition with_Folder (tc : TestCase) (folder : list string) : TestCase :=
  mkTestCase (TestCase_Title tc) (TestCase_LegacyID tc) folder
    (TestCase_Priority tc) (TestCase_Tags tc) (TestCase_Preconditions tc)
    (TestCase_Steps tc) (TestCase_Requirement tc) (TestCase_Files tc)
    (TestCase_Links tc) (TestCase_Draft tc).

Definition with_Priority (tc : TestCase) (p : Priority) : TestCase :=
  mkTestCase (TestCase_Title tc) (TestCase_LegacyID tc) (TestCase_Folder tc)
    p (TestCase_Tags tc) (TestCase_Preconditions tc)
    (TestCase_Steps tc) (TestCase_Requirement tc) (TestCase_Files tc)
    (TestCase_Links tc) (TestCase_Draft tc).

Definition with_Tags (tc : TestCase) (tags : list string) : TestCase :=
  mkTestCase (TestCase_Title tc) (TestCase_LegacyID tc) (TestCase_Folder tc)
    (TestCase_Priority tc) tags (TestCase_Preconditions tc)
    (TestCase_Steps tc) (TestCase_Requirement tc) (TestCase_Files tc)
    (TestCase_Links tc) (TestCase_Draft tc).

Definition with_Steps (tc : TestCase) (steps : list Step) : TestCase :=
  mkTestCase (TestCase_Title tc) (TestCase_LegacyID tc) (TestCase_Folder tc)
    (TestCase_Priority tc) (TestCase_Tags tc) (TestCase_Preconditions tc)
    steps (TestCase_Requirement tc) (TestCase_Files tc)
    (TestCase_Links tc) (TestCase_Draft tc).

Definition with_Requirement (tc : TestCase) (r : Requirement) : TestCase :=
  mkTestCase (TestCase_Title tc) (TestCase_LegacyID tc) (TestCase_Folder tc)
    (TestCase_Priority tc) (TestCase_Tags tc) (TestCase_Preconditions tc)
    (TestCase_Steps tc) (Some r) (TestCase_Files tc)
    (TestCase_Links tc) (TestCase_Draft tc).

Definition with_Files (tc : TestCase) (files : list File) : TestCase :=
  mkTestCase (TestCase_Title tc) (TestCase_LegacyID tc) (TestCase_Folder tc)
    (TestCase_Priority tc) (TestCase_Tags tc) (TestCase_Preconditions tc)
    (TestCase_Steps tc) (TestCase_Requirement tc) files
    (TestCase_Links tc) (TestCase_Draft tc).

Definition with_Links (tc : TestCase) (links : list Link) : TestCase :=
  mkTestCase (TestCase_Title tc) (TestCase_LegacyID tc) (TestCase_Folder tc)
    (TestCase_Priority tc) (TestCase_Tags tc) (TestCase_Preconditions tc)
    (TestCase_Steps tc) (TestCase_Requirement tc) (TestCase_Files tc)
    links (TestCase_Draft tc).

(** [n] copies of a string, one after the other. *)
Fixpoint repeat_string (n : nat) (s : string) : string :=
  match n with
  | 0 => ""
  | S n' => s +:+ repeat_string n' s
  end.

Definition failureTestCases : list TestCase :=
  [ minimal "";
    minimal (repeat_string 16 "very-long-title-");
    with_Folder (minimal "no folder") [];
    with_Folder (minimal "folder with empty title") ["root/child"];
    with_Folder (minimal "folder title with slash") ["root/child"];
    with_Priority (minimal "wrong priority") "very high";
    with_Tags (minimal "empty tag") [""];
    with_Tags (minimal "long tag") [repeat_string 18 "very-long-tag-" +:+ "very"];
    with_Requirement (minimal "requirement without title and url") (mkRequirement "" "");
    with_Requirement (minimal "requirement with invalid url") (mkRequirement "" "ftp://req1");
    with_Links (minimal "link without title and url") [mkLink "" ""];
    with_Links (minimal "link with no url") [mkLink "link-1" ""];
    with_Links (minimal "link with no title") [mkLink "" "http://link1"];
    with_Links (minimal "link with invalid url") [mkLink "link-1" "ftp://link1"];
    with_Files (minimal "file without name") [mkFile "" "" "http://file1" "text/csv" 10];
    with_Files (minimal "file without id and url") [mkFile "file-1.csv" "" "" "text/csv" 10];
    with_Files (minimal "file with invalid url") [mkFile "file-1.csv" "" "ftp://file1" "text/csv" 10] ].

(** The records of two scenarios of the specification: one folder with a
    record of one step and a record of two; a record in [root/child] added
    before a record in [root]. *)
Definition steps_scenario : list TestCase :=
  [ with_Steps (minimal "one step") [mkStep "a1" "e1"];
    with_Steps (minimal "two steps") [mkStep "a1" "e1"; mkStep "a2" "e2"] ].

Definition folders_scenario : list TestCase :=
  [ with_Folder (minimal "in child") ["root"; "child"]; minimal "in root" ].

Definition ftp_requirement : TestCase :=
  with_Requirement (minimal "requirement with invalid url")
    (mkRequirement "" "ftp://req1").

Section Package.

(** The library functions this development does not unfold.  [net/url.Parse]
    ([None]: it returned an error), [strings.ToLower], the validator's
    [isURL] and the string-literal encoder of [encoding/json] (with HTML
    escaping, as [json.Marshal] sets it) are parameters: every theorem holds
    for whatever functions they are. *)
Variable url_Parse : string -> option URL.
Variable strings_ToLower : string -> string.
Variable isURL : string -> bool.
Variable json_string : string -> string.

(* ===================================================================== *)
(** * go-playground/validator: the tag engine                           *)
(* ===================================================================== *)

(** The tags that occur in [qascsv.go]. *)
Inductive vtag : Type :=
| required
| omitempty
| dive
| max (n : nat)
| min (n : nat)
| excludesall (chars : string)
| oneof (vals : list string)
| required_without (field : string)
| http_url.

Definition tag_name (t : vtag) : string :=
  match t with
  | required => "required"
  | omitempty => "omitempty"
  | dive => "dive"
  | max _ => "max"
  | min _ => "min"
  | excludesall _ => "excludesall"
  | oneof _ => "oneof"
  | required_without _ => "required_without"
  | http_url => "http_url"
  end.

(** [hasValue] on a field of kind string: it is not the zero value. *)
Definition hasValue (s : string) : bool := negb (String.eqb s "").

(** The string fields of the struct under validation, by name
    ([GetStructFieldOK] on the parent). *)
Fixpoint struct_field (parent : list (string * string)) (name : string)
  : option string :=
  match parent with
  | [] => None
  | (n, v) :: rest => if String.eqb n name then Some v else struct_field rest name
  end.

(** [requireCheckFieldKind(fl, param, true)]: the named sibling has its zero
    value; [true] when the parent has no such field. *)
Definition requireCheckFieldKind (parent : list (string * string))
  (param : string) : bool :=
  match struct_field parent param with
  | Some v => String.eqb v ""
  | None => true
  end.

(** The element of a slice under [dive], or a field reached through a
    pointer: a string, or a struct given by its own [validateStruct] (from
    the namespace of its fields to their errors). *)
Inductive elem : Type :=
| EString (s : string)
| EStruct (validateStruct : string -> list FieldError).

(** [isHttpURL]: the [http_url] tag. *)
Definition isHttpURL (s : string) : bool :=
  if negb (isURL s) then false
  else
    match url_Parse (strings_ToLower s) with
    | None => false
    | Some u =>
        if String.eqb (URL_Host u) "" then false
        else String.eqb (URL_Scheme u) "http" || String.eqb (URL_Scheme u) "https"
    end.

(** The validation function of a tag on a field of kind string. *)
Definition run_tag (parent : list (string * string)) (t : vtag) (s : string)
  : bool :=
  match t with
  | required => hasValue s
  | max n => RuneCountInString s <=? n
  | min n => n <=? RuneCountInString s
  | excludesall chars => negb (strings_ContainsAny s chars)
  | oneof vals => bool_decide (s ∈ vals)
  | required_without f =>
      if requireCheckFieldKind parent f then hasValue s else true
  | http_url => isHttpURL s
  | omitempty | dive => true
  end.

Definition field_error (ns name : string) (t : vtag) : FieldError :=
  {| Namespace := ns +:+ name; Field := name; Tag := tag_name t |}.

(** [traverseField] on a field of kind string: the tags run in order;
    [omitempty] ends the chain on a zero value; the first tag that fails is
    reported and ends the chain.  ([dive] on a string panics in the library;
    no field of the package has it.) *)
Fixpoint traverseString (parent : list (string * string)) (ns name : string)
  (ct : list vtag) (s : string) : list FieldError :=
  match ct with
  | [] => []
  | omitempty :: ct' =>
      if hasValue s then traverseString parent ns name ct' s else []
  | dive :: _ => []
  | t :: ct' =>
      if run_tag parent t s then traverseString parent ns name ct' s
      else [field_error ns name t]
  end.

(** A struct value is validated by its own [validateStruct] under the
    namespace extended by the field's name.  (The package puts no tag on a
    struct.) *)
Definition traverseElem (parent : list (string * string)) (ns name : string)
  (ct : list vtag) (e : elem) : list FieldError :=
  match e with
  | EString s => traverseString parent ns name ct s
  | EStruct validateStruct => validateStruct (ns +:+ name +:+ ".")
  end.

(** The name of element [i] under [dive]: [name[i]]. *)
Definition elem_name (name : string) (i : nat) : string :=
  name +:+ "[" +:+ strconv_FormatInt (Z.of_nat i) +:+ "]".

(** [traverseField] on a field of kind slice: [min] and [max] bound its
    length; [dive] runs the rest of the chain on every element; without
    [dive] the elements are not visited.  (Other tags on a slice do not
    occur in the package.) *)
Fixpoint traverseSlice (parent : list (string * string)) (ns name : string)
  (ct : list vtag) (es : list elem) : list FieldError :=
  match ct with
  | [] => []
  | dive :: ct' =>
      mjoin (imap (fun i e => traverseElem parent ns (elem_name name i) ct' e) es)
  | min n :: ct' =>
      if n <=? length es then traverseSlice parent ns name ct' es
      else [field_error ns name (min n)]
  | max n :: ct' =>
      if length es <=? n then traverseSlice parent ns name ct' es
      else [field_error ns name (max n)]
  | _ :: ct' => traverseSlice parent ns name ct' es
  end.

(** [traverseField] on an untagged pointer to a struct: nil is skipped. *)
Definition traversePtr (parent : list (string * string)) (ns name : string)
  (p : option elem) : list FieldError :=
  match p with
  | None => []
  | Some e => traverseElem parent ns name [] e
  end.

(** [validateStruct] of the three nested types, from their tags. *)
Definition validate_Requirement (r : Requirement) (ns : string)
  : list FieldError :=
  let parent := [("Title", Requirement_Title r); ("URL", Requirement_URL r)] in
  traverseString parent ns "Title"
    [required_without "URL"; max 255] (Requirement_Title r) ++
  traverseString parent ns "URL"
    [required_without "Title"; omitempty; http_url; max 255] (Requirement_URL r).

Definition validate_Link (l : Link) (ns : string) : list FieldError :=
  let parent := [("Title", Link_Title l); ("URL", Link_URL l)] in
  traverseString parent ns "Title" [required; max 255] (Link_Title l) ++
  traverseString parent ns "URL" [required; http_url; max 255] (Link_URL l).

Definition validate_File (f : File) (ns : string) : list FieldError :=
  let parent := [("Name", File_Name f); ("ID", File_ID f); ("URL", File_URL f);
                 ("MimeType", File_MimeType f)] in
  traverseString parent ns "Name" [required] (File_Name f) ++
  traverseString parent ns "ID" [required_without "URL"] (File_ID f) ++
  traverseString parent ns "URL"
    [required_without "ID"; omitempty; http_url] (File_URL f) ++
  traverseString parent ns "MimeType" [] (File_MimeType f).

(** [validateStruct] of [TestCase]: its fields in declaration order.  The
    untagged fields [Steps] (a slice that is not dived into) and [Draft]
    add nothing. *)
Definition validate_TestCase (tc : TestCase) (ns : string) : list FieldError :=
  let parent := [("Title", TestCase_Title tc); ("LegacyID", TestCase_LegacyID tc);
                 ("Priority", TestCase_Priority tc);
                 ("Preconditions", TestCase_Preconditions tc)] in
  traverseString parent ns "Title" [required; max 255] (TestCase_Title tc) ++
  traverseString parent ns "LegacyID" [max 255] (TestCase_LegacyID tc) ++
  traverseSlice parent ns "Folder"
    [min 1; dive; required; max 127; excludesall "/"]
    (EString <$> TestCase_Folder tc) ++
  traverseString parent ns "Priority"
    [required; oneof ["low"; "medium"; "high"]] (TestCase_Priority tc) ++
  traverseSlice parent ns "Tags" [dive; required; max 255]
    (EString <$> TestCase_Tags tc) ++
  traverseString parent ns "Preconditions" [] (TestCase_Preconditions tc) ++
  traversePtr parent ns "Requirement"
    (EStruct ∘ validate_Requirement <$> TestCase_Requirement tc) ++
  traverseSlice parent ns "Files" [dive]
    (EStruct ∘ validate_File <$> TestCase_Files tc) ++
  traverseSlice parent ns "Links" [dive]
    (EStruct ∘ validate_Link <$> TestCase_Links tc).

(** [Validate.Struct] on a [TestCase]: nil when no field failed, else the
    failures as [ValidationErrors]. *)
Definition validate_Struct (tc : TestCase) : option error :=
  match validate_TestCase tc "TestCase." with
  | [] => None
  | errs => Some (ValidationErrors errs)
  end.

(* ===================================================================== *)
(** * encoding/json                                                      *)
(* ===================================================================== *)

(** A Go value as the encoder sees it through reflection: a struct is the
    list of its exported fields in declaration order, each with the name and
    the [omitempty] flag of its [json] tag. *)
#[warnings="-register-all"]
Inductive jvalue : Type :=
| JString (s : string)
| JInt (n : Z)
| JSlice (elems : list jvalue)
| JStruct (fields : list (string * bool * jvalue))
| JUnsupported (kind : string).      (* chan, func, complex *)

(** [isEmptyValue], which decides [omitempty]. *)
Definition isEmptyValue (v : jvalue) : bool :=
  match v with
  | JString s => String.eqb s ""
  | JInt n => (n =? 0)%Z
  | JSlice elems => Nat.eqb (length elems) 0
  | _ => false
  end.

(** A field's key in the output: its name between double quotes, then [:]. *)
Definition json_key (name : string) : string :=
  String dquote (name +:+ String dquote ":").

(** [arrayEncoder]: the elements in order, a comma before every element but
    the first. *)
Definition arrayEncoder (elemEnc : jvalue → result string)
  : nat → list jvalue → result string :=
  fix loop (i : nat) (es : list jvalue) : result string :=
    match es with
    | [] => Ok ""
    | e :: es' =>
        do x <- elemEnc e;
        do rest <- loop (S i) es';
        Ok ((if Nat.ltb 0 i then "," else "") +:+ x +:+ rest)
    end.

(** [structEncoder]: an empty [omitempty] field is skipped; [next] is an
    opening brace before the first field written and a comma after it. *)
Definition structEncoder (fieldEnc : jvalue → result string)
  : ascii → list (string * bool * jvalue) → result string :=
  fix loop (next : ascii) (fs : list (string * bool * jvalue)) : result string :=
    match fs with
    | [] => Ok (if decide (next = "{"%char) then "{}" else "}")
    | (name, omitEmpty, fv) :: fs' =>
        if omitEmpty && isEmptyValue fv then loop next fs'
        else
          do x <- fieldEnc fv;
          do rest <- loop ","%char fs';
          Ok (String next (json_key name +:+ x +:+ rest))
    end.

(** The encoder of a value: by its kind. *)
Fixpoint json_encode (v : jvalue) : result string :=
  match v with
  | JString s => Ok (json_string s)
  | JInt n => Ok (strconv_FormatInt n)
  | JSlice elems =>
      do body <- arrayEncoder json_encode 0 elems;
      Ok ("[" +:+ body +:+ "]")
  | JStruct fields => structEncoder json_encode "{"%char fields
  | JUnsupported kind => Err (UnsupportedTypeError kind)
  end.

(** [File] under reflection, from its [json] tags. *)
Definition File_reflect (f : File) : jvalue :=
  JStruct [("file_name", false, JString (File_Name f));
           ("id", true, JString (File_ID f));
           ("url", true, JString (File_URL f));
           ("mime_type", false, JString (File_MimeType f));
           ("size", false, JInt (File_Size f))].

(** [json.Marshal(files)] for a non-nil [files []File]. *)
Definition json_Marshal (files : list File) : result string :=
  json_encode (JSlice (File_reflect <$> files)).

(* ===================================================================== *)
(** * encoding/csv                                                       *)
(* ===================================================================== *)

(** The writer with its defaults: [Comma = ','], [UseCRLF = false]. *)
Definition csv_special (c : ascii) : bool :=
  bool_decide (c = "010"%char ∨ c = "013"%char ∨ c = dquote ∨ c = ","%char).

Fixpoint has_special (field : string) : bool :=
  match field with
  | "" => false
  | String c rest => csv_special c || has_special rest
  end.

Definition fieldNeedsQuotes (field : string) : bool :=
  if String.eqb field "" then false
  else if String.eqb field "\." then true
  else if has_special field then true
  else first_rune_IsSpace field.

(** Inside quotes a double quote is doubled; [\r] and [\n] are written as
    they are. *)
Fixpoint csv_escape (field : string) : string :=
  match field with
  | "" => ""
  | String c rest =>
      if decide (c = dquote) then String dquote (String dquote (csv_escape rest))
      else String c (csv_escape rest)
  end.

Definition csv_field (field : string) : string :=
  if fieldNeedsQuotes field
  then String dquote (csv_escape field +:+ String dquote "")
  else field.

(** [Writer.Write]: a comma before every field but the first, a line
    feed after the last. *)
Fixpoint csv_fields (n : nat) (record : list string) : string :=
  match record with
  | [] => ""
  | field :: rest =>
      (if Nat.ltb 0 n then "," else "") +:+ csv_field field +:+ csv_fields (S n) rest
  end.

Definition csv_Write (record : list string) : string :=
  csv_fields 0 record +:+ String "010"%char "".

(** [Writer.WriteAll] into a [strings.Builder], which never fails. *)
Definition csv_WriteAll (records : list (list string)) : string :=
  foldl (fun w record => w +:+ csv_Write record) "" records.

(* ===================================================================== *)
(** * The package [qascsv]: operations                                   *)
(* ===================================================================== *)

Definition NewQASphereCSV : QASphereCSV :=
  {| folderTCaseMap := ∅; numTCases := 0; maxSteps := 0 |}.

Definition validateTestCase (tc : TestCase) : option error :=
  validate_Struct tc.

(** [q.folderTCaseMap[folderPath]]: the nil slice for a missing key. *)
Definition map_index (m : gmap string (list TestCase)) (k : string)
  : list TestCase :=
  default [] (m !! k).

Definition addTCase (q : QASphereCSV) (tc : TestCase) : QASphereCSV :=
  let folderPath := strings_Join (TestCase_Folder tc) "/" in
  {| folderTCaseMap :=
       <[folderPath := map_index (folderTCaseMap q) folderPath ++ [tc]]>
         (folderTCaseMap q);
     numTCases := S (numTCases q);
     maxSteps :=
       if Nat.ltb (maxSteps q) (length (TestCase_Steps tc))
       then length (TestCase_Steps tc)
       else maxSteps q |}.

(** A method with receiver [q] and result [error] returns the error ([None]
    for nil) and the receiver's new state. *)
Definition AddTestCase (q : QASphereCSV) (tc : TestCase)
  : option error * QASphereCSV :=
  match validateTestCase tc with
  | Some err => (Some (Wrap err "test case validation"), q)
  | None => (None, addTCase q tc)
  end.

(** The first loop of [AddTestCases], from index [i] on. *)
Fixpoint validate_batch (i : nat) (tcs : list TestCase) (err : option error)
  : option error :=
  match tcs with
  | [] => err
  | tc :: rest =>
      validate_batch (S i) rest
        match validateTestCase tc with
        | Some retErr =>
            multierror_Append err
              (Wrap retErr (Sprintf "test case %d" [ArgInt (Z.of_nat i)]))
        | None => err
        end
  end.

Definition AddTestCases (q : QASphereCSV) (tcs : list TestCase)
  : option error * QASphereCSV :=
  match validate_batch 0 tcs None with
  | Some err => (Some (Wrap err "validation"), q)
  | None => (None, foldl addTCase q tcs)
  end.

(** Go does not fix the order in which [range] visits the keys of a map.
    The order one execution takes is the argument [visit] of the functions
    below; [map_range q visit] says that it is one [range] can take: every
    key of the map once. *)
Definition map_range (q : QASphereCSV) (visit : list string) : Prop :=
  visit ≡ₚ (map_to_list (folderTCaseMap q)).*1.

#[global] Instance map_range_dec q visit : Decision (map_range q visit).
Proof. unfold map_range. apply _. Defined.

Definition getFolders (q : QASphereCSV) (visit : list string) : list string :=
  let folders := foldl (fun folders folder => folders ++ [folder]) [] visit in
  slices_Sort folders.

(** Iteration with an early [return nil, err]. *)
Fixpoint for_each {A B} (body : B -> A -> result B) (acc : B) (l : list A)
  : result B :=
  match l with
  | [] => Ok acc
  | x :: rest => do acc' <- body acc x; for_each body acc' rest
  end.

Definition link_text (title url : string) : string :=
  Sprintf "[%s](%s)" [ArgString title; ArgString url].

(** The header: [rows[0]] of [getCSVRows]. *)
Definition header_row (q : QASphereCSV) : list string :=
  foldl (fun row0 i =>
           row0 ++ [Sprintf "Step %d" [ArgInt (Z.of_nat i + 1)];
                    Sprintf "Expected %d" [ArgInt (Z.of_nat i + 1)]])
        staticColumns (seq 0 (maxSteps q)).

(** The body of the inner loop of [getCSVRows]: the row of [tc] in folder
    [f].  The guard [i < numSteps] keeps [tc.Steps[i]] in range. *)
Definition tcase_row (q : QASphereCSV) (f : string) (tc : TestCase)
  : result (list string) :=
  let requirement :=
    match TestCase_Requirement tc with
    | Some r => link_text (Requirement_Title r) (Requirement_URL r)
    | None => ""
    end in
  let links :=
    foldl (fun links link => links ++ [link_text (Link_Title link) (Link_URL link)])
          [] (TestCase_Links tc) in
  do files <-
    (if Nat.ltb 0 (length (TestCase_Files tc)) then
       match json_Marshal (TestCase_Files tc) with
       | inr err => Err (Wrap err "json marshal files")
       | inl filesb => Ok filesb
       end
     else Ok "");
  let row :=
    [f; TestCase_Title tc; TestCase_LegacyID tc;
     strconv_FormatBool (TestCase_Draft tc); TestCase_Priority tc;
     strings_Join (TestCase_Tags tc) ","; requirement;
     strings_Join links ","; files; TestCase_Preconditions tc] in
  let numSteps := length (TestCase_Steps tc) in
  Ok (foldl (fun row i =>
               if Nat.ltb i numSteps
               then row ++ [Step_Action (TestCase_Steps tc !!! i);
                            Step_Expected (TestCase_Steps tc !!! i)]
               else row ++ [""; ""])
            row (seq 0 (maxSteps q))).

(** [numTCases] and [numCols] only size the allocations of [rows] and of each
    row; they do not show in the result. *)
Definition getCSVRows (q : QASphereCSV) (visit : list string)
  : result (list (list string)) :=
  let rows := [header_row q] in
  let folders := getFolders q visit in
  for_each (fun rows f =>
              for_each (fun rows tc =>
                          do row <- tcase_row q f tc; Ok (rows ++ [row]))
                       rows (map_index (folderTCaseMap q) f))
           rows folders.

Definition writeCSV (q : QASphereCSV) (visit : list string) : result string :=
  match getCSVRows q visit with
  | inr err => Err (Wrap err "get csv rows")
  | inl rows => Ok (csv_WriteAll rows)
  end.

Definition GenerateCSV (q : QASphereCSV) (visit : list string) : result string :=
  match writeCSV q visit with
  | inr err => Err (Wrap err "generate csv")
  | inl w => Ok w
  end.

(** ** Histories of calls *)

Inductive call : Type :=
| CallAddTestCase (tc : TestCase)
| CallAddTestCases (tcs : list TestCase).

Definition run_call (q : QASphereCSV) (c : call) : option error * QASphereCSV :=
  match c with
  | CallAddTestCase tc => AddTestCase q tc
  | CallAddTestCases tcs => AddTestCases q tcs
  end.

(** The state after a sequence of calls on a new engine. *)
Definition run (calls : list call) : QASphereCSV :=
  foldl (fun q c => (run_call q c).2) NewQASphereCSV calls.

(* ===================================================================== *)
(** * The vocabulary of the specification                                *)
(* ===================================================================== *)

(** The folder-path key of a record. *)
Definition folder_path (tc : TestCase) : string :=
  strings_Join (TestCase_Folder tc) "/".

(** A record is valid when no field fails its tags. *)
Definition valid (tc : TestCase) : Prop :=
  validate_TestCase tc "TestCase." = [].

#[global] Instance valid_dec tc : Decision (valid tc).
Proof. unfold valid. apply _. Defined.

(** The records a call accumulates: its argument when it passes validation,
    nothing otherwise. *)
Definition accepted_by (c : call) : list TestCase :=
  match c with
  | CallAddTestCase tc => if decide (valid tc) then [tc] else []
  | CallAddTestCases tcs => if decide (Forall valid tcs) then tcs else []
  end.

(** The accumulated records of a history, in the order of accumulation. *)
Definition accepted (calls : list call) : list TestCase :=
  mjoin (accepted_by <$> calls).

(** The maximum step count over a list of records. *)
Definition max_steps_of (log : list TestCase) : nat :=
  max_list ((fun tc => length (TestCase_Steps tc)) <$> log).

(** The decimal numeral of a natural number. *)
Definition decimal (i : nat) : string := strconv_FormatInt (Z.of_nat i).

(** The step columns of a header: the pair [Step i], [Expected i] for [i]
    from 1 to [n]. *)
Definition step_columns (n : nat) : list string :=
  mjoin ((fun i => ["Step " +:+ decimal i; "Expected " +:+ decimal i]) <$> seq 1 n).

(** The step cells of a record: action and expected result of each step. *)
Definition step_cells (tc : TestCase) : list string :=
  mjoin ((fun st => [Step_Action st; Step_Expected st]) <$> TestCase_Steps tc).

(** The records in the order of the export: folder by folder, the distinct
    folder paths ascending, and the records of one folder in the order of the
    history. *)
Definition export_order (log : list TestCase) : list TestCase :=
  mjoin ((fun f => filter (fun tc => folder_path tc = f) log)
           <$> slices_Sort (remove_dups (folder_path <$> log))).

(** The violations of a batch: one per record that fails validation, tagged
    with the record's position. *)
Definition batch_errors_from (i : nat) (tcs : list TestCase) : list error :=
  mjoin (imap (fun j tc =>
                 match validateTestCase tc with
                 | Some err => [Wrap err ("test case " +:+ decimal (i + j))]
                 | None => []
                 end) tcs).

Definition batch_errors (tcs : list TestCase) : list error :=
  batch_errors_from 0 tcs.

(** The cells of the specification. *)
Definition Requirements_cell (tc : TestCase) : string :=
  match TestCase_Requirement tc with
  | Some r => "[" +:+ Requirement_Title r +:+ "](" +:+ Requirement_URL r +:+ ")"
  | None => ""
  end.

Definition Links_cell (tc : TestCase) : string :=
  String.concat ","
    ((fun l => "[" +:+ Link_Title l +:+ "](" +:+ Link_URL l +:+ ")")
       <$> TestCase_Links tc).

(** One file as a compact JSON object: [file_name], then [id] and [url]
    unless empty, then [mime_type] and [size]. *)
Definition file_object (f : File) : string :=
  "{" +:+ json_key "file_name" +:+ json_string (File_Name f) +:+
  (if decide (File_ID f = "") then ""
   else "," +:+ json_key "id" +:+ json_string (File_ID f)) +:+
  (if decide (File_URL f = "") then ""
   else "," +:+ json_key "url" +:+ json_string (File_URL f)) +:+
  "," +:+ json_key "mime_type" +:+ json_string (File_MimeType f) +:+
  "," +:+ json_key "size" +:+ strconv_FormatInt (File_Size f) +:+ "}".

Definition Files_cell (tc : TestCase) : string :=
  match TestCase_Files tc with
  | [] => ""
  | files => "[" +:+ String.concat "," (file_object <$> files) +:+ "]"
  end.

(** The ten static cells of a record's row. *)
Definition static_cells (tc : TestCase) : list string :=
  [folder_path tc; TestCase_Title tc; TestCase_LegacyID tc;
   if TestCase_Draft tc then "true" else "false"; TestCase_Priority tc;
   String.concat "," (TestCase_Tags tc); Requirements_cell tc; Links_cell tc;
   Files_cell tc; TestCase_Preconditions tc].

(** The row of a record in a grid with [n] step column pairs. *)
Definition grid_row (n : nat) (tc : TestCase) : list string :=
  static_cells tc ++ step_cells tc
    ++ replicate (2 * (n - length (TestCase_Steps tc))) "".

(** The lines of a text: the pieces that end in a line feed. *)
Fixpoint lines_from (cur : string) (s : string) : list string :=
  match s with
  | "" => if String.eqb cur "" then [] else [String.rev cur]
  | String c rest =>
      if decide (c = "010"%char) then String.rev cur :: lines_from "" rest
      else lines_from (String c cur) rest
  end.

Definition lines (s : string) : list string := lines_from "" s.

(** The defects of the rejection set, each with the namespace of the field
    it is reported on. *)
Definition contains_slash (s : string) : Prop :=
  ∃ a b, s = a +:+ "/" +:+ b.

Definition non_http_scheme (s : string) : Prop :=
  s ≠ "" ∧
  ∀ u, url_Parse (strings_ToLower s) = Some u →
       URL_Scheme u ≠ "http" ∧ URL_Scheme u ≠ "https".

Inductive defect (tc : TestCase) : string → Prop :=
| empty_title :
    TestCase_Title tc = "" → defect tc "TestCase.Title"
| long_title :
    255 < RuneCountInString (TestCase_Title tc) → defect tc "TestCase.Title"
| no_folder :
    TestCase_Folder tc = [] → defect tc "TestCase.Folder"
| folder_with_slash i seg :
    TestCase_Folder tc !! i = Some seg → contains_slash seg →
    defect tc ("TestCase.Folder[" +:+ decimal i +:+ "]")
| bad_priority :
    TestCase_Priority tc ∉ [PriorityLow; PriorityMedium; PriorityHigh] →
    defect tc "TestCase.Priority"
| empty_tag i :
    TestCase_Tags tc !! i = Some "" →
    defect tc ("TestCase.Tags[" +:+ decimal i +:+ "]")
| empty_requirement r :
    TestCase_Requirement tc = Some r →
    Requirement_Title r = "" → Requirement_URL r = "" →
    defect tc "TestCase.Requirement.Title"
| requirement_scheme r :
    TestCase_Requirement tc = Some r → non_http_scheme (Requirement_URL r) →
    defect tc "TestCase.Requirement.URL"
| link_scheme i l :
    TestCase_Links tc !! i = Some l → non_http_scheme (Link_URL l) →
    defect tc ("TestCase.Links[" +:+ decimal i +:+ "].URL")
| file_scheme i f :
    TestCase_Files tc !! i = Some f → non_http_scheme (File_URL f) →
    defect tc ("TestCase.Files[" +:+ decimal i +:+ "].URL")
| link_no_title i l :
    TestCase_Links tc !! i = Some l → Link_Title l = "" →
    defect tc ("TestCase.Links[" +:+ decimal i +:+ "].Title")
| link_no_url i l :
    TestCase_Links tc !! i = Some l → Link_URL l = "" →
    defect tc ("TestCase.Links[" +:+ decimal i +:+ "].URL")
| file_no_name i f :
    TestCase_Files tc !! i = Some f → File_Name f = "" →
    defect tc ("TestCase.Files[" +:+ decimal i +:+ "].Name")
| file_no_id_no_url i f :
    TestCase_Files tc !! i = Some f → File_ID f = "" → File_URL f = "" →
    defect tc ("TestCase.Files[" +:+ decimal i +:+ "].ID").

(** The blocks of a list [l] for the keys [ks]: for each key in turn, the
    elements of [l] with that key, in the order they have in [l]. *)
Definition blocks {A} (key : A → string) (ks : list string) (l : list A)
  : list A :=
  mjoin ((fun f => filter (fun x => key x = f) l) <$> ks).

(** ** Auxiliary definitions of the proofs *)

(** The accumulated error of the validation loop, as a list of violations. *)
Definition to_multi (es : list error) : option error :=
  match es with
  | [] => None
  | _ => Some (MultiError es)
  end.

(** The elements after the first, each behind its comma. *)
Definition comma_each (xs : list string) : string :=
  foldr (fun x rest => "," +:+ x +:+ rest) "" xs.

(** The cells [tcase_row] computes, for any folder key and any width. *)
Definition row_cells (n : nat) (f : string) (tc : TestCase) : list string :=
  [f; TestCase_Title tc; TestCase_LegacyID tc;
   if TestCase_Draft tc then "true" else "false"; TestCase_Priority tc;
   String.concat "," (TestCase_Tags tc); Requirements_cell tc; Links_cell tc;
   Files_cell tc; TestCase_Preconditions tc]
  ++ mjoin ((fun i =>
               if Nat.ltb i (length (TestCase_Steps tc))
               then [Step_Action (TestCase_Steps tc !!! i);
                     Step_Expected (TestCase_Steps tc !!! i)]
               else [""; ""]) <$> seq 0 n).


(* ===================================================================== *)
(** * Further operations and vocabulary                                  *)
(* ===================================================================== *)

(** ** [WriteCSVToFile] *)

(** The errors of the operations that touch the file system: an error of the
    operating system (a [*fs.PathError]), an error of the package, or one of
    these under a message of [errors.Wrap]. *)
Inductive file_error : Type :=
| PathError (op path msg : string)
| PackageError (err : error)
| WrapFile (cause : file_error) (msg : string).

(** What the operating system does in one execution: [os.Create] opens the
    file or fails; the writes to the open file all succeed, or fail with an
    error after [n] bytes have reached the file. *)
Inductive create_outcome : Type :=
| Created
| CreateFailed (err : file_error).

Inductive write_outcome : Type :=
| Written
| WriteFailed (n : nat) (err : file_error).

(** [writeCSV(f)] on an open file with the content [content]: the error
    returned, and the content of the file afterwards.  An error of
    [getCSVRows] is wrapped and nothing is written; an error of the writer
    is returned as it is. *)
Definition writeCSV_file (q : QASphereCSV) (visit : list string)
  (wo : write_outcome) (content : string) : option file_error * string :=
  match getCSVRows q visit with
  | inr err => (Some (PackageError (Wrap err "get csv rows")), content)
  | inl rows =>
      match wo with
      | Written => (None, content +:+ csv_WriteAll rows)
      | WriteFailed n err =>
          (Some err, content +:+ String.substring 0 n (csv_WriteAll rows))
      end
  end.

(** [WriteCSVToFile] on a file system that maps names to contents.
    [os.Create] truncates the file or creates it empty; the deferred
    [f.Close()] returns nothing the method reads. *)
Definition WriteCSVToFile (q : QASphereCSV) (visit : list string)
  (file : string) (co : create_outcome) (wo : write_outcome)
  (fs : gmap string string) : option file_error * gmap string string :=
  match co with
  | CreateFailed err => (Some (WrapFile err "create csv"), fs)
  | Created =>
      match writeCSV_file q visit wo "" with
      | (Some err, content) =>
          (Some (WrapFile err "write csv"), <[file := content]> fs)
      | (None, content) => (None, <[file := content]> fs)
      end
  end.

(** ** Well-formed records, field by field *)

(** The length limit of a tag [max=n]: at most [n] runes. *)
Definition runes_le (n : nat) (s : string) : Prop := RuneCountInString s ≤ n.

(** A string without the byte [/]. *)
Definition slash_free (s : string) : Prop := strings_ContainsAny s "/" = false.

Definition Requirement_ok (r : Requirement) : Prop :=
  (Requirement_Title r ≠ "" ∨ Requirement_URL r ≠ "") ∧
  runes_le 255 (Requirement_Title r) ∧
  (Requirement_URL r = "" ∨
   isHttpURL (Requirement_URL r) = true ∧ runes_le 255 (Requirement_URL r)).

Definition Link_ok (l : Link) : Prop :=
  Link_Title l ≠ "" ∧ runes_le 255 (Link_Title l) ∧
  Link_URL l ≠ "" ∧ isHttpURL (Link_URL l) = true ∧ runes_le 255 (Link_URL l).

Definition File_ok (f : File) : Prop :=
  File_Name f ≠ "" ∧
  (File_ID f ≠ "" ∨ File_URL f ≠ "") ∧
  (File_URL f = "" ∨ isHttpURL (File_URL f) = true).

Definition well_formed (tc : TestCase) : Prop :=
  TestCase_Title tc ≠ "" ∧ runes_le 255 (TestCase_Title tc) ∧
  runes_le 255 (TestCase_LegacyID tc) ∧
  TestCase_Folder tc ≠ [] ∧
  Forall (fun seg => seg ≠ "" ∧ runes_le 127 seg ∧ slash_free seg)
         (TestCase_Folder tc) ∧
  TestCase_Priority tc ∈ [PriorityLow; PriorityMedium; PriorityHigh] ∧
  Forall (fun tag => tag ≠ "" ∧ runes_le 255 tag) (TestCase_Tags tc) ∧
  (∀ r, TestCase_Requirement tc = Some r → Requirement_ok r) ∧
  Forall File_ok (TestCase_Files tc) ∧
  Forall Link_ok (TestCase_Links tc).

(** ** Adding the records of a batch one by one *)
Definition add_each (q : QASphereCSV) (tcs : list TestCase) : QASphereCSV :=
  foldl (fun q tc => (AddTestCase q tc).2) q tcs.

(* ===================================================================== *)
(** * Properties of the runtime functions                               *)
(* ===================================================================== *)

(** ** The order on strings *)

Lemma string_cmp_refl a : string_cmp a a = Eq.
Proof. induction a as [|x a IH]; simpl; [done|]. by rewrite N.compare_refl. Qed.

Lemma byte_val_inj x y : byte_val x = byte_val y → x = y.
Proof.
  unfold byte_val. intros E.
  rewrite <- (ascii_N_embedding x), <- (ascii_N_embedding y). by rewrite E.
Qed.

Lemma string_cmp_eq a b : string_cmp a b = Eq → a = b.
Proof.
  revert b. induction a as [|x a IH]; intros [|y b]; simpl; try done.
  destruct (N.compare_spec (byte_val x) (byte_val y)) as [E| |]; try done.
  intros H. f_equal; [by apply byte_val_inj | by apply IH].
Qed.

Lemma string_cmp_opp a b : string_cmp b a = CompOpp (string_cmp a b).
Proof.
  revert b. induction a as [|x a IH]; intros [|y b]; simpl; try done.
  rewrite (N.compare_antisym (byte_val x) (byte_val y)).
  destruct (byte_val x ?= byte_val y)%N; simpl; auto.
Qed.

Lemma string_lt_trans a b c : string_lt a b → string_lt b c → string_lt a c.
Proof.
  unfold string_lt. revert b c.
  induction a as [|x a IH]; intros [|y b] [|z c]; simpl; try done.
  destruct (N.compare_spec (byte_val x) (byte_val y)) as [E|L|G]; try done;
    destruct (N.compare_spec (byte_val y) (byte_val z)) as [E'|L'|G']; try done;
    intros H1 H2.
  - rewrite E, E', N.compare_refl. eauto.
  - rewrite E. by apply N.compare_lt_iff in L' as ->.
  - rewrite <- E'. by apply N.compare_lt_iff in L as ->.
  - assert (byte_val x < byte_val z)%N as L'' by lia.
    by apply N.compare_lt_iff in L'' as ->.
Qed.

Lemma string_le_lt_or_eq a b : string_le a b ↔ string_lt a b ∨ a = b.
Proof.
  unfold string_le, string_lt. split.
  - destruct (string_cmp a b) eqn:E; [right; by apply string_cmp_eq|by left|done].
  - intros [->| ->]; [done|]. by rewrite string_cmp_refl.
Qed.

#[global] Instance string_le_trans : Transitive string_le.
Proof.
  intros a b c. rewrite !string_le_lt_or_eq.
  intros [H1| ->] [H2| ->]; eauto using string_lt_trans.
Qed.

#[global] Instance string_le_total : Total string_le.
Proof.
  intros a b. unfold string_le. rewrite (string_cmp_opp a b).
  destruct (string_cmp a b); simpl; auto.
Qed.

#[global] Instance string_le_antisym : AntiSymm (=) string_le.
Proof.
  intros a b. unfold string_le. rewrite (string_cmp_opp a b).
  destruct (string_cmp a b) eqn:E; simpl; try done.
  intros _ _. by apply string_cmp_eq.
Qed.

(** [slices.Sort] returns a sorted rearrangement of its argument, and there
    is only one: the model does not depend on the sorting algorithm. *)
Lemma slices_Sort_sorted l : Sorted string_le (slices_Sort l).
Proof. apply Sorted_merge_sort, _. Qed.

Lemma slices_Sort_perm l : slices_Sort l ≡ₚ l.
Proof. apply merge_sort_Permutation. Qed.

Lemma sort_unique l l' : Sorted string_le l' → l' ≡ₚ l → l' = slices_Sort l.
Proof.
  intros Hs Hp. apply (Sorted_unique string_le); auto using slices_Sort_sorted.
  by rewrite Hp, slices_Sort_perm.
Qed.

Lemma slices_Sort_proper l1 l2 : l1 ≡ₚ l2 → slices_Sort l1 = slices_Sort l2.
Proof.
  intros Hp. apply sort_unique; [apply slices_Sort_sorted|].
  by rewrite slices_Sort_perm.
Qed.

(** A sorted slice without repetition is strictly ascending. *)
Lemma sorted_nodup_strict l :
  NoDup l → Sorted string_le l → StronglySorted string_lt l.
Proof.
  intros Hnd Hs. apply (Sorted_StronglySorted string_le) in Hs.
  induction Hs as [|x l Hs IH Hall]; [constructor|].
  apply NoDup_cons in Hnd as [Hx Hnd]. constructor; [by apply IH|].
  rewrite Forall_forall in Hall |- *. intros y Hy.
  destruct (proj1 (string_le_lt_or_eq x y) (Hall y Hy)) as [?| ->]; [done|].
  by destruct Hx.
Qed.

(** ** Formatting *)

Lemma append_nil_r s : s +:+ "" = s.
Proof. induction s as [|c s IH]; [done|]. unfold String.app. simpl. by f_equal. Qed.

Lemma append_assoc (a b c : string) : (a +:+ b) +:+ c = a +:+ b +:+ c.
Proof. induction a as [|x a IH]; [done|]. unfold String.app. simpl. by f_equal. Qed.

Lemma Sprintf_test_case i :
  Sprintf "test case %d" [ArgInt (Z.of_nat i)] = "test case " +:+ decimal i.
Proof. unfold decimal. simpl. by rewrite append_nil_r. Qed.

Lemma Sprintf_Step i :
  Sprintf "Step %d" [ArgInt (Z.of_nat i + 1)] = "Step " +:+ decimal (S i).
Proof.
  unfold decimal. rewrite Nat2Z.inj_succ. simpl. by rewrite append_nil_r.
Qed.

Lemma Sprintf_Expected i :
  Sprintf "Expected %d" [ArgInt (Z.of_nat i + 1)] = "Expected " +:+ decimal (S i).
Proof.
  unfold decimal. rewrite Nat2Z.inj_succ. simpl. by rewrite append_nil_r.
Qed.

Lemma link_text_eq title url :
  link_text title url = "[" +:+ title +:+ "](" +:+ url +:+ ")".
Proof.
  unfold link_text. simpl.
  change ("[" +:+ title +:+ "](" +:+ url +:+ ")")
    with (String "[" (title +:+ String "]" (String "(" (url +:+ ")")))).
  done.
Qed.

(** ** Loops that append *)

Lemma foldl_snoc {A} (l acc : list A) :
  foldl (fun folders folder => folders ++ [folder]) acc l = acc ++ l.
Proof.
  revert acc. induction l as [|x l IH]; intros acc; simpl.
  - by rewrite app_nil_r.
  - by rewrite IH, <- app_assoc.
Qed.

Lemma foldl_append {A B} (g : A → list B) (l : list A) (acc : list B) :
  foldl (fun row i => row ++ g i) acc l = acc ++ mjoin (g <$> l).
Proof.
  revert acc. induction l as [|x l IH]; intros acc; simpl.
  - by rewrite app_nil_r.
  - by rewrite IH, <- app_assoc.
Qed.

Lemma foldl_append_ext {A B} (body : list B → A → list B) (g : A → list B)
    (l : list A) (acc : list B) :
  (∀ row i, body row i = row ++ g i) →
  foldl body acc l = acc ++ mjoin (g <$> l).
Proof.
  intros Hb. rewrite <- foldl_append. revert acc.
  induction l as [|x l IH]; intros acc; simpl; [done|]. by rewrite Hb, IH.
Qed.

Lemma length_join_const {A B} (g : A → list B) (k : nat) (l : list A) :
  (∀ x, length (g x) = k) → length (mjoin (g <$> l)) = k * length l.
Proof.
  intros Hg. induction l as [|x l IH]; [simpl; lia|].
  rewrite fmap_cons.
  change (mjoin (g x :: (g <$> l))) with (g x ++ mjoin (g <$> l)).
  rewrite length_app, IH, Hg. simpl. lia.
Qed.

Lemma join_singletons {A B} (g : A → B) (l : list A) :
  mjoin ((fun x => [g x]) <$> l) = g <$> l.
Proof. induction l as [|x l IH]; simpl; [done|by f_equal]. Qed.

(** [strings.Join] is the concatenation with separators. *)
Lemma strings_Join_concat elems sep :
  strings_Join elems sep = String.concat sep elems.
Proof.
  induction elems as [|e [|e' rest] IH]; [done..|].
  change (e +:+ sep +:+ strings_Join (e' :: rest) sep
          = e +:+ sep +:+ String.concat sep (e' :: rest)).
  by rewrite IH.
Qed.

(** A loop whose body never fails runs to its end. *)
Lemma for_each_total {A B} (body : B → A → result B) (f : B → A → B) l acc :
  (∀ b a, body b a = Ok (f b a)) → for_each body acc l = Ok (foldl f acc l).
Proof.
  intros Hb. revert acc. induction l as [|x l IH]; intros acc; simpl; [done|].
  rewrite Hb. simpl. apply IH.
Qed.

(* ===================================================================== *)
(** * Validation and accumulation                                        *)
(* ===================================================================== *)

Lemma validateTestCase_valid tc : valid tc → validateTestCase tc = None.
Proof. unfold valid, validateTestCase, validate_Struct. by intros ->. Qed.

Lemma validateTestCase_invalid tc :
  ¬ valid tc →
  validateTestCase tc = Some (ValidationErrors (validate_TestCase tc "TestCase.")).
Proof.
  unfold valid, validateTestCase, validate_Struct.
  by destruct (validate_TestCase tc "TestCase.").
Qed.

Lemma validateTestCase_None tc : validateTestCase tc = None ↔ valid tc.
Proof.
  split; [|apply validateTestCase_valid].
  destruct (decide (valid tc)) as [|Hn]; [done|].
  by rewrite (validateTestCase_invalid _ Hn).
Qed.

Lemma multierror_Append_to_multi es e :
  multierror_Append (to_multi es) e = to_multi (es ++ [e]).
Proof. by destruct es. Qed.

Lemma batch_errors_from_cons i tc tcs :
  batch_errors_from i (tc :: tcs) =
  match validateTestCase tc with
  | Some err => [Wrap err ("test case " +:+ decimal i)]
  | None => []
  end ++ batch_errors_from (S i) tcs.
Proof.
  unfold batch_errors_from. rewrite imap_cons. simpl.
  rewrite Nat.add_0_r. do 2 f_equal.
  apply imap_ext. intros j x _. simpl. by rewrite Nat.add_succ_r.
Qed.

Lemma validate_batch_spec i tcs es :
  validate_batch i tcs (to_multi es) = to_multi (es ++ batch_errors_from i tcs).
Proof.
  revert i es. induction tcs as [|tc tcs IH]; intros i es; cbn [validate_batch].
  - by rewrite app_nil_r.
  - rewrite batch_errors_from_cons, Sprintf_test_case.
    destruct (validateTestCase tc) as [err|].
    + rewrite multierror_Append_to_multi, IH. by rewrite <- app_assoc.
    + apply IH.
Qed.

Lemma batch_errors_from_nil i tcs :
  batch_errors_from i tcs = [] ↔ Forall valid tcs.
Proof.
  revert i. induction tcs as [|tc tcs IH]; intros i.
  - by split; [constructor|].
  - rewrite batch_errors_from_cons, Forall_cons, <- (IH (S i)).
    rewrite <- validateTestCase_None.
    destruct (validateTestCase tc); simpl; naive_solver.
Qed.

(** The violations are those of the records that fail, each under the
    position of its record, in the order of the batch. *)
Lemma elem_of_batch_errors tcs e :
  e ∈ batch_errors tcs ↔
  ∃ i tc err, tcs !! i = Some tc ∧ validateTestCase tc = Some err ∧
              e = Wrap err ("test case " +:+ decimal i).
Proof.
  unfold batch_errors, batch_errors_from. rewrite list_elem_of_join. split.
  - intros (l & He & Hl). apply elem_of_lookup_imap in Hl as (i & tc & -> & Htc).
    destruct (validateTestCase tc) as [err|] eqn:Hv; [|by apply elem_of_nil in He].
    apply list_elem_of_singleton in He as ->. eauto 10.
  - intros (i & tc & err & Htc & Hv & ->). eexists. split; last first.
    { apply elem_of_lookup_imap. eauto. }
    rewrite Hv. simpl. apply list_elem_of_singleton. done.
Qed.

Lemma length_batch_errors_from i tcs :
  length (batch_errors_from i tcs) = length (filter (fun tc => ¬ valid tc) tcs).
Proof.
  revert i. induction tcs as [|tc tcs IH]; intros i; [done|].
  rewrite batch_errors_from_cons, length_app, IH, filter_cons.
  destruct (decide (valid tc)) as [Hv|Hn].
  - rewrite (validateTestCase_valid _ Hv). by rewrite decide_False by auto.
  - rewrite (validateTestCase_invalid _ Hn). by rewrite decide_True by auto.
Qed.

(** ** The state after accumulating a list of records *)

Lemma map_index_insert m k v k' :
  map_index (<[k := v]> m) k' = if decide (k = k') then v else map_index m k'.
Proof.
  unfold map_index. rewrite lookup_insert. by destruct (decide (k = k')).
Qed.

Lemma addTCase_index q tc k :
  map_index (folderTCaseMap (addTCase q tc)) k =
  map_index (folderTCaseMap q) k ++ (if decide (folder_path tc = k) then [tc] else []).
Proof.
  unfold addTCase, folder_path. simpl. rewrite map_index_insert.
  destruct (decide _) as [->|]; [done|by rewrite app_nil_r].
Qed.

Lemma accumulate_index q log k :
  map_index (folderTCaseMap (foldl addTCase q log)) k =
  map_index (folderTCaseMap q) k ++ filter (fun tc => folder_path tc = k) log.
Proof.
  revert q. induction log as [|tc log IH]; intros q; simpl.
  - by rewrite app_nil_r.
  - rewrite IH, addTCase_index, filter_cons, <- app_assoc.
    by destruct (decide (folder_path tc = k)).
Qed.

Lemma accumulate_keys q log k :
  is_Some (folderTCaseMap (foldl addTCase q log) !! k) ↔
  is_Some (folderTCaseMap q !! k) ∨ k ∈ folder_path <$> log.
Proof.
  revert q. induction log as [|tc log IH]; intros q; simpl.
  - rewrite elem_of_nil. naive_solver.
  - rewrite IH, elem_of_cons. unfold addTCase at 1. simpl.
    fold (folder_path tc). rewrite lookup_insert_is_Some'. naive_solver.
Qed.

Lemma accumulate_numTCases q log :
  numTCases (foldl addTCase q log) = numTCases q + length log.
Proof.
  revert q. induction log as [|tc log IH]; intros q; simpl; [lia|].
  rewrite IH. simpl. lia.
Qed.

Lemma accumulate_maxSteps q log :
  maxSteps (foldl addTCase q log) = maxSteps q `max` max_steps_of log.
Proof.
  revert q. induction log as [|tc log IH]; intros q; simpl.
  - unfold max_steps_of. simpl. lia.
  - rewrite IH.
    change (max_steps_of (tc :: log))
      with (length (TestCase_Steps tc) `max` max_steps_of log).
    generalize (max_steps_of log). intros n. simpl.
    destruct (Nat.ltb_spec (maxSteps q) (length (TestCase_Steps tc))); lia.
Qed.

(** ** Histories *)

Lemma AddTestCase_spec q tc :
  AddTestCase q tc =
  if decide (valid tc) then (None, addTCase q tc)
  else (Some (Wrap (ValidationErrors (validate_TestCase tc "TestCase."))
                   "test case validation"), q).
Proof.
  unfold AddTestCase. destruct (decide (valid tc)) as [Hv|Hn].
  - by rewrite (validateTestCase_valid _ Hv).
  - by rewrite (validateTestCase_invalid _ Hn).
Qed.

Lemma AddTestCases_spec q tcs :
  AddTestCases q tcs =
  if decide (Forall valid tcs) then (None, foldl addTCase q tcs)
  else (Some (Wrap (MultiError (batch_errors tcs)) "validation"), q).
Proof.
  unfold AddTestCases.
  change (validate_batch 0 tcs None) with (validate_batch 0 tcs (to_multi [])).
  rewrite (validate_batch_spec 0 tcs []). simpl. fold (batch_errors tcs).
  destruct (decide (Forall valid tcs)) as [Hv|Hn].
  - apply (batch_errors_from_nil 0) in Hv. unfold batch_errors. by rewrite Hv.
  - destruct (batch_errors tcs) eqn:E; [|done].
    destruct Hn. by apply (batch_errors_from_nil 0).
Qed.

Lemma run_call_accepted q c :
  (run_call q c).2 = foldl addTCase q (accepted_by c).
Proof.
  destruct c as [tc|tcs]; simpl.
  - rewrite AddTestCase_spec. by destruct (decide (valid tc)).
  - rewrite AddTestCases_spec. by destruct (decide (Forall valid tcs)).
Qed.

Lemma run_accepted calls :
  run calls = foldl addTCase NewQASphereCSV (accepted calls).
Proof.
  unfold run, accepted. generalize NewQASphereCSV.
  induction calls as [|c calls IH]; intros q; simpl; [done|].
  by rewrite foldl_app, IH, run_call_accepted.
Qed.

Lemma accepted_valid calls : Forall valid (accepted calls).
Proof.
  unfold accepted. induction calls as [|c calls IH]; simpl; [constructor|].
  apply Forall_app. split; [|done].
  destruct c as [tc|tcs]; simpl; case_decide; auto.
Qed.

(* ===================================================================== *)
(** * The export                                                         *)
(* ===================================================================== *)

(** ** The JSON of a list of files *)

Lemma concat_comma_each x xs :
  String.concat "," (x :: xs) = x +:+ comma_each xs.
Proof.
  revert x. induction xs as [|y xs IH]; intros x.
  - simpl. by rewrite append_nil_r.
  - change (String.concat "," (x :: y :: xs))
      with (x +:+ "," +:+ String.concat "," (y :: xs)).
    by rewrite IH.
Qed.

Lemma arrayEncoder_tail enc (g : jvalue → string) i es :
  (∀ e, e ∈ es → enc e = Ok (g e)) →
  arrayEncoder enc (S i) es = Ok (comma_each (g <$> es)).
Proof.
  revert i. induction es as [|e es IH]; intros i Henc; [done|].
  cbn [arrayEncoder]. rewrite (Henc e) by apply list_elem_of_here.
  cbn [bind]. fold (arrayEncoder enc). rewrite IH; [done|].
  intros e' He'. apply Henc. by apply list_elem_of_further.
Qed.

Lemma arrayEncoder_concat enc (g : jvalue → string) es :
  (∀ e, e ∈ es → enc e = Ok (g e)) →
  arrayEncoder enc 0 es = Ok (String.concat "," (g <$> es)).
Proof.
  destruct es as [|e es]; intros Henc; [done|].
  cbn [arrayEncoder]. rewrite (Henc e) by apply list_elem_of_here.
  cbn [bind]. fold (arrayEncoder enc).
  rewrite (arrayEncoder_tail enc g); [|intros; apply Henc; by apply list_elem_of_further].
  cbn [bind]. rewrite fmap_cons, concat_comma_each. done.
Qed.

Lemma json_encode_File f : json_encode (File_reflect f) = Ok (file_object f).
Proof.
  unfold File_reflect, file_object.
  cbn [json_encode structEncoder isEmptyValue andb].
  destruct (decide (File_ID f = "")) as [Hid|Hid];
    destruct (decide (File_URL f = "")) as [Hurl|Hurl];
    rewrite ?(proj2 (String.eqb_eq _ _) Hid), ?(proj2 (String.eqb_neq _ _) Hid),
            ?(proj2 (String.eqb_eq _ _) Hurl), ?(proj2 (String.eqb_neq _ _) Hurl);
    cbn; rewrite ?append_assoc; reflexivity.
Qed.

(** [json.Marshal] on a list of files never fails. *)
Lemma json_Marshal_files files :
  json_Marshal files = Ok ("[" +:+ String.concat "," (file_object <$> files) +:+ "]").
Proof.
  unfold json_Marshal. cbn [json_encode].
  rewrite (arrayEncoder_concat json_encode
             (fun v => match json_encode v with inl s => s | inr _ => "" end)).
  - cbn [bind]. do 4 f_equal. rewrite <- list_fmap_compose.
    apply list_fmap_ext. intros _ f _. unfold compose. by rewrite json_encode_File.
  - intros e (f & -> & _)%list_elem_of_fmap. by rewrite json_encode_File.
Qed.

(** ** One row *)

Lemma links_loop tc :
  foldl (fun links link => links ++ [link_text (Link_Title link) (Link_URL link)])
        [] (TestCase_Links tc)
  = (fun l => "[" +:+ Link_Title l +:+ "](" +:+ Link_URL l +:+ ")") <$> TestCase_Links tc.
Proof.
  rewrite (foldl_append (fun link => [link_text (Link_Title link) (Link_URL link)])).
  cbn [app]. rewrite join_singletons.
  apply list_fmap_ext. intros _ l _. apply link_text_eq.
Qed.

Lemma tcase_row_total q f tc :
  tcase_row q f tc = Ok (row_cells (maxSteps q) f tc).
Proof.
  unfold tcase_row, row_cells.
  rewrite links_loop, !strings_Join_concat.
  rewrite json_Marshal_files.
  assert (∀ k : string → result (list string),
    (do files <- (if Nat.ltb 0 (length (TestCase_Files tc))
                  then Ok ("[" +:+ String.concat "," (file_object <$> TestCase_Files tc) +:+ "]")
                  else Ok ""); k files) = k (Files_cell tc)) as ->.
  { intros k. unfold Files_cell. by destruct (TestCase_Files tc). }
  f_equal.
  rewrite (foldl_append_ext _
    (fun i => if Nat.ltb i (length (TestCase_Steps tc))
              then [Step_Action (TestCase_Steps tc !!! i);
                    Step_Expected (TestCase_Steps tc !!! i)]
              else [""; ""])) by (intros row i; by destruct (Nat.ltb _ _)).
  unfold Requirements_cell, Links_cell, strconv_FormatBool.
  destruct (TestCase_Requirement tc); [by rewrite link_text_eq|done].
Qed.

Lemma lookup_total_seq {A B} `{!Inhabited A} (g : A → B) (l : list A) :
  (fun i => g (l !!! i)) <$> seq 0 (length l) = g <$> l.
Proof.
  apply list_eq. intros i. rewrite !list_lookup_fmap.
  destruct (decide (i < length l)) as [Hi|Hi].
  - rewrite lookup_seq_lt by done. simpl.
    destruct (lookup_lt_is_Some_2 l i Hi) as [x Hx].
    by rewrite Hx, (list_lookup_total_correct _ _ _ Hx).
  - rewrite lookup_seq_ge by lia. by rewrite lookup_ge_None_2 by lia.
Qed.

Lemma join_blank_pairs a k :
  mjoin ((fun _ : nat => [""; ""]) <$> seq a k) = replicate (2 * k) "".
Proof.
  revert a. induction k as [|k IH]; intros a; [done|].
  simpl. rewrite IH. replace (k + S (k + 0)) with (S (2 * k)) by lia. done.
Qed.

(** Within the width of the grid, the cells of the loop are the record's own
    step cells followed by two empty cells per missing step. *)
Lemma row_cells_grid_row n tc :
  length (TestCase_Steps tc) ≤ n →
  row_cells n (folder_path tc) tc = grid_row n tc.
Proof.
  intros Hn. unfold row_cells, grid_row, static_cells.
  cbn [app]. do 10 f_equal.
  replace n with (length (TestCase_Steps tc) + (n - length (TestCase_Steps tc)))
    at 1 by lia.
  rewrite seq_app, fmap_app, join_app. f_equal.
  - unfold step_cells. rewrite <- (lookup_total_seq _ (TestCase_Steps tc)).
    f_equal. apply list_fmap_ext. intros j i Hi.
    apply lookup_seq in Hi as [-> Hi]. simpl in *.
    by destruct (Nat.ltb_spec j (length (TestCase_Steps tc))); [|lia].
  - rewrite <- join_blank_pairs with (a := 0 + length (TestCase_Steps tc)).
    f_equal. apply list_fmap_ext. intros j i Hi.
    apply lookup_seq in Hi as [-> Hi].
    by destruct (Nat.ltb_spec (0 + length (TestCase_Steps tc) + j)
                   (length (TestCase_Steps tc))); [lia|].
Qed.

Lemma length_step_cells tc :
  length (step_cells tc) = 2 * length (TestCase_Steps tc).
Proof.
  unfold step_cells. by apply length_join_const.
Qed.

Lemma length_grid_row n tc :
  length (TestCase_Steps tc) ≤ n → length (grid_row n tc) = 10 + 2 * n.
Proof.
  intros Hn. unfold grid_row.
  rewrite !length_app, length_step_cells, length_replicate. simpl. lia.
Qed.

(** ** The header *)

Lemma header_row_spec q :
  header_row q = staticColumns ++ step_columns (maxSteps q).
Proof.
  unfold header_row, step_columns.
  rewrite (foldl_append
    (fun i => [Sprintf "Step %d" [ArgInt (Z.of_nat i + 1)];
               Sprintf "Expected %d" [ArgInt (Z.of_nat i + 1)]])).
  do 2 f_equal. rewrite <- fmap_S_seq, <- list_fmap_compose.
  apply list_fmap_ext. intros _ i _. unfold compose. cbv beta.
  by rewrite Sprintf_Step, Sprintf_Expected.
Qed.

(** ** The grid *)

Lemma rows_loop (g : TestCase → list string) rows l :
  for_each (fun rows tc => do row <- Ok (g tc); Ok (rows ++ [row])) rows l
  = Ok (rows ++ (g <$> l)).
Proof.
  rewrite (for_each_total _ (fun rows tc => rows ++ [g tc])) by done.
  f_equal. rewrite (foldl_append (fun tc => [g tc])). f_equal.
  apply join_singletons.
Qed.

(** [getCSVRows] never fails: it returns the header and, folder by folder in
    the order of [getFolders], the rows of the folder's records. *)
Lemma getCSVRows_total q visit :
  getCSVRows q visit =
  Ok (header_row q ::
      mjoin ((fun f => row_cells (maxSteps q) f <$> map_index (folderTCaseMap q) f)
               <$> getFolders q visit)).
Proof.
  unfold getCSVRows.
  rewrite (for_each_total _
    (fun rows f => rows ++ (row_cells (maxSteps q) f <$> map_index (folderTCaseMap q) f))).
  - f_equal.
    rewrite (foldl_append
      (fun f => row_cells (maxSteps q) f <$> map_index (folderTCaseMap q) f)).
    done.
  - intros rows f. rewrite <- rows_loop.
    generalize (map_index (folderTCaseMap q) f). intros l. revert rows.
    induction l as [|tc l IH]; intros rows; [done|].
    cbn [for_each]. rewrite tcase_row_total. cbn [bind]. apply IH.
Qed.

(** ** Grouping a list by a key *)

Section grouping.
Context {A : Type} (key : A → string).

Lemma blocks_cons k ks l :
  blocks key (k :: ks) l = filter (fun x => key x = k) l ++ blocks key ks l.
Proof. done. Qed.

(** The blocks of all the keys hold every element once. *)
Lemma blocks_perm ks l :
  NoDup ks → (∀ x, x ∈ l → key x ∈ ks) → blocks key ks l ≡ₚ l.
Proof.
  intros Hnd. revert l. induction Hnd as [|k ks Hk Hnd IH]; intros l Hall.
  - destruct l as [|x l]; [done|].
    destruct (not_elem_of_nil (key x)). apply Hall, list_elem_of_here.
  - rewrite blocks_cons.
    rewrite <- (filter_app_complement (fun x => key x = k) l) at 3.
    f_equiv.
    assert (blocks key ks l = blocks key ks (filter (fun x => ¬ key x = k) l)) as ->.
    { unfold blocks. f_equal. apply list_fmap_ext.
      intros _ f Hf%list_elem_of_lookup_2.
      rewrite list_filter_filter. apply list_filter_iff.
      intros x. split; [|naive_solver]. intros ->. split; [done|]. by intros <-. }
    apply IH. intros x [Hx Hin]%list_elem_of_filter.
    specialize (Hall x Hin). rewrite elem_of_cons in Hall. naive_solver.
Qed.

Lemma fmap_blocks {B} (g : A → B) ks l :
  g <$> blocks key ks l = mjoin ((fun f => g <$> filter (fun x => key x = f) l) <$> ks).
Proof.
  induction ks as [|k ks IH]; [done|].
  rewrite blocks_cons, fmap_app, IH. done.
Qed.
End grouping.

(** ** The grid of a history *)

Lemma export_order_blocks log :
  export_order log =
  blocks folder_path (slices_Sort (remove_dups (folder_path <$> log))) log.
Proof. done. Qed.

Lemma sorted_folders_NoDup log :
  NoDup (slices_Sort (remove_dups (folder_path <$> log))).
Proof. rewrite slices_Sort_perm. apply NoDup_remove_dups. Qed.

Lemma sorted_folders_elem log f :
  f ∈ slices_Sort (remove_dups (folder_path <$> log)) ↔ f ∈ folder_path <$> log.
Proof. by rewrite slices_Sort_perm, elem_of_remove_dups. Qed.

(** The records of the export are the accumulated records, each once. *)
Lemma export_order_perm log : export_order log ≡ₚ log.
Proof.
  rewrite export_order_blocks. apply blocks_perm; [apply sorted_folders_NoDup|].
  intros tc Htc. apply sorted_folders_elem. by apply list_elem_of_fmap_2.
Qed.

(** The keys of the map after a history, as a list for [range]. *)
Lemma accumulate_map_keys log :
  (map_to_list (folderTCaseMap (foldl addTCase NewQASphereCSV log))).*1
  ≡ₚ remove_dups (folder_path <$> log).
Proof.
  apply NoDup_Permutation;
    [apply NoDup_fst_map_to_list|apply NoDup_remove_dups|].
  intros k. rewrite elem_of_remove_dups.
  transitivity (is_Some (folderTCaseMap (foldl addTCase NewQASphereCSV log) !! k)).
  - rewrite list_elem_of_fmap. split.
    + intros ([k' v] & -> & Hkv). apply elem_of_map_to_list in Hkv. by exists v.
    + intros [v Hv]. exists (k, v). split; [done|]. by apply elem_of_map_to_list.
  - rewrite accumulate_keys. simpl. rewrite lookup_empty.
    split; [intros [[? ?]|?]; done|auto].
Qed.

Lemma getFolders_sort q visit : getFolders q visit = slices_Sort visit.
Proof. unfold getFolders. by rewrite foldl_snoc. Qed.

Lemma getFolders_run calls visit :
  map_range (run calls) visit →
  getFolders (run calls) visit
  = slices_Sort (remove_dups (folder_path <$> accepted calls)).
Proof.
  unfold map_range. rewrite getFolders_sort, run_accepted. intros Hv.
  apply slices_Sort_proper. by rewrite Hv, accumulate_map_keys.
Qed.

Lemma maxSteps_run calls : maxSteps (run calls) = max_steps_of (accepted calls).
Proof. rewrite run_accepted, accumulate_maxSteps. simpl. lia. Qed.

Lemma steps_le_max log tc :
  tc ∈ log → length (TestCase_Steps tc) ≤ max_steps_of log.
Proof.
  intros Htc. unfold max_steps_of. apply max_list_elem_of_le.
  by apply (list_elem_of_fmap_2 (fun tc => length (TestCase_Steps tc))).
Qed.

(** The grid of a history: the header for the maximum step count of the
    accumulated records, then the row of every record in export order. *)
Lemma export_grid calls visit :
  map_range (run calls) visit →
  getCSVRows (run calls) visit =
  Ok ((staticColumns ++ step_columns (max_steps_of (accepted calls)))
        :: (grid_row (max_steps_of (accepted calls)) <$> export_order (accepted calls))).
Proof.
  intros Hv. rewrite getCSVRows_total, header_row_spec, getFolders_run by done.
  rewrite maxSteps_run, export_order_blocks, fmap_blocks. do 3 f_equal.
  apply list_fmap_ext. intros _ f _.
  rewrite run_accepted, accumulate_index. simpl.
  apply list_fmap_ext. intros _ tc [<- Htc]%list_elem_of_lookup_2%list_elem_of_filter.
  apply row_cells_grid_row. by apply steps_le_max.
Qed.

(* ===================================================================== *)
(** * The rejection set                                                  *)
(* ===================================================================== *)

(** Every error of a field carries the field's namespace. *)
Lemma traverseString_namespace parent ns name ct s fe :
  fe ∈ traverseString parent ns name ct s → Namespace fe = ns +:+ name.
Proof.
  induction ct as [|t ct IH]; simpl; [by intros ?%elem_of_nil|].
  destruct t; try (destruct (run_tag _ _ _); [done|];
                   by intros ->%list_elem_of_singleton).
  - destruct (hasValue s); [done|by intros ?%elem_of_nil].
  - by intros ?%elem_of_nil.
Qed.

(** A field whose chain reports something is reported under its namespace. *)
Lemma traverseString_reports parent ns name ct s :
  traverseString parent ns name ct s ≠ [] →
  ∃ fe, fe ∈ traverseString parent ns name ct s ∧ Namespace fe = ns +:+ name.
Proof.
  destruct (traverseString parent ns name ct s) as [|fe l] eqn:E; [done|].
  intros _. exists fe. split; [apply list_elem_of_here|].
  apply (traverseString_namespace parent ns name ct s). rewrite E.
  apply list_elem_of_here.
Qed.

Lemma hasValue_true s : s ≠ "" → hasValue s = true.
Proof. intros Hs. unfold hasValue. by apply negb_true_iff, String.eqb_neq. Qed.

Lemma ContainsAny_slash s : contains_slash s → strings_ContainsAny s "/" = true.
Proof.
  intros (a & b & ->). induction a as [|x a IH].
  - change ("" +:+ "/" +:+ b) with (String "/" b). done.
  - change (String x a +:+ "/" +:+ b) with (String x (a +:+ "/" +:+ b)).
    simpl. rewrite IH. apply orb_true_r.
Qed.

Lemma isHttpURL_scheme s : non_http_scheme s → isHttpURL s = false.
Proof.
  intros [_ Hs]. unfold isHttpURL. destruct (isURL s); [|done]. simpl.
  destruct (url_Parse (strings_ToLower s)) as [u|]; [|done].
  destruct (Hs u eq_refl) as [H1 H2].
  apply String.eqb_neq in H1. apply String.eqb_neq in H2. rewrite H1, H2.
  by destruct (String.eqb (URL_Host u) "").
Qed.

(** An element under [dive] reports under its indexed name. *)
Lemma traverseSlice_dive parent ns name ct es i e fe :
  es !! i = Some e →
  fe ∈ traverseElem parent ns (elem_name name i) ct e →
  fe ∈ traverseSlice parent ns name (dive :: ct) es.
Proof.
  intros He Hfe. simpl. apply list_elem_of_join. eexists. split; [exact Hfe|].
  by apply (elem_of_lookup_imap_2
              (fun i e => traverseElem parent ns (elem_name name i) ct e)).
Qed.

Lemma elem_name_namespace ns name i field :
  (ns +:+ elem_name name i +:+ ".") +:+ field
  = ns +:+ name +:+ "[" +:+ decimal i +:+ "]." +:+ field.
Proof.
  unfold elem_name, decimal. rewrite !append_assoc. done.
Qed.

(** The fields of the nested structs. *)
Lemma Link_Title_required l ns :
  Link_Title l = "" →
  ∃ fe, fe ∈ validate_Link l ns ∧ Namespace fe = ns +:+ "Title".
Proof.
  intros H. unfold validate_Link. rewrite H.
  eexists. split; [apply elem_of_app; left; apply list_elem_of_here|done].
Qed.

Lemma Link_URL_rejected l ns :
  Link_URL l = "" ∨ non_http_scheme (Link_URL l) →
  ∃ fe, fe ∈ validate_Link l ns ∧ Namespace fe = ns +:+ "URL".
Proof.
  intros H. unfold validate_Link.
  destruct (traverseString_reports [("Title", Link_Title l); ("URL", Link_URL l)]
              ns "URL" [required; http_url; max 255] (Link_URL l)) as (fe & Hfe & Hns).
  - simpl. destruct H as [->|H]; [done|].
    rewrite (hasValue_true _ (proj1 H)), (isHttpURL_scheme _ H). done.
  - exists fe. split; [|done]. apply elem_of_app. by right.
Qed.

Lemma File_Name_required f ns :
  File_Name f = "" →
  ∃ fe, fe ∈ validate_File f ns ∧ Namespace fe = ns +:+ "Name".
Proof.
  intros H. unfold validate_File. rewrite H.
  eexists. split; [apply elem_of_app; left; apply list_elem_of_here|done].
Qed.

Lemma File_ID_required f ns :
  File_ID f = "" → File_URL f = "" →
  ∃ fe, fe ∈ validate_File f ns ∧ Namespace fe = ns +:+ "ID".
Proof.
  intros H1 H2. unfold validate_File. rewrite H1, H2.
  exists (field_error ns "ID" (required_without "URL")). split; [|reflexivity].
  apply elem_of_app; right. apply elem_of_app; left. apply list_elem_of_here.
Qed.

Lemma File_URL_scheme f ns :
  non_http_scheme (File_URL f) →
  ∃ fe, fe ∈ validate_File f ns ∧ Namespace fe = ns +:+ "URL".
Proof.
  intros H. unfold validate_File.
  destruct (traverseString_reports
              [("Name", File_Name f); ("ID", File_ID f); ("URL", File_URL f);
               ("MimeType", File_MimeType f)]
              ns "URL" [required_without "ID"; omitempty; http_url] (File_URL f))
    as (fe & Hfe & Hns).
  - simpl. rewrite (hasValue_true _ (proj1 H)), (isHttpURL_scheme _ H).
    by destruct (requireCheckFieldKind _ _).
  - exists fe. split; [|done]. rewrite !elem_of_app. auto.
Qed.

Lemma Requirement_Title_required r ns :
  Requirement_Title r = "" → Requirement_URL r = "" →
  ∃ fe, fe ∈ validate_Requirement r ns ∧ Namespace fe = ns +:+ "Title".
Proof.
  intros H1 H2. unfold validate_Requirement. rewrite H1, H2.
  eexists. split; [apply elem_of_app; left; apply list_elem_of_here|done].
Qed.

Lemma Requirement_URL_scheme r ns :
  non_http_scheme (Requirement_URL r) →
  ∃ fe, fe ∈ validate_Requirement r ns ∧ Namespace fe = ns +:+ "URL".
Proof.
  intros H. unfold validate_Requirement.
  destruct (traverseString_reports
              [("Title", Requirement_Title r); ("URL", Requirement_URL r)]
              ns "URL" [required_without "Title"; omitempty; http_url; max 255]
              (Requirement_URL r)) as (fe & Hfe & Hns).
  - simpl. rewrite (hasValue_true _ (proj1 H)), (isHttpURL_scheme _ H).
    by destruct (requireCheckFieldKind _ _).
  - exists fe. split; [|done]. apply elem_of_app. by right.
Qed.

(** A struct element of [Files] or [Links] reports through [dive]. *)
Lemma dive_struct {A} (v : A → string → list FieldError) parent ns name
    (l : list A) i x field fe :
  l !! i = Some x →
  fe ∈ v x (ns +:+ elem_name name i +:+ ".") →
  Namespace fe = (ns +:+ elem_name name i +:+ ".") +:+ field →
  fe ∈ traverseSlice parent ns name [dive] (EStruct ∘ v <$> l) ∧
  Namespace fe = ns +:+ name +:+ "[" +:+ decimal i +:+ "]." +:+ field.
Proof.
  intros Hx Hfe Hns. split; [|by rewrite Hns, elem_name_namespace].
  apply (traverseSlice_dive _ _ _ _ _ i (EStruct (v x))); [|done].
  by rewrite list_lookup_fmap, Hx.
Qed.

(** Each defect of the rejection set is reported on its field. *)
Lemma defect_reported tc ns :
  defect tc ns →
  ∃ fe, fe ∈ validate_TestCase tc "TestCase." ∧ Namespace fe = ns.
Proof.
  unfold validate_TestCase.
  set (parent := [("Title", TestCase_Title tc); ("LegacyID", TestCase_LegacyID tc);
                  ("Priority", TestCase_Priority tc);
                  ("Preconditions", TestCase_Preconditions tc)]).
  intros [H|H|H|i seg Hi H|H|i Hi|r Hr H1 H2|r Hr H|i l Hi H|i f Hi H
          |i l Hi H|i l Hi H|i f Hi H|i f Hi H1 H2].
  - (* empty Title *)
    rewrite H. eexists. split; [apply elem_of_app; left; apply list_elem_of_here|done].
  - (* Title over 255 runes *)
    destruct (traverseString_reports parent "TestCase." "Title"
                [required; max 255] (TestCase_Title tc)) as (fe & Hfe & Hns).
    { simpl. destruct (hasValue _); [|done].
      by destruct (Nat.leb_spec (RuneCountInString (TestCase_Title tc)) 255); [lia|]. }
    exists fe. split; [|done]. apply elem_of_app. by left.
  - (* empty Folder *)
    rewrite H. exists (field_error "TestCase." "Folder" (min 1)).
    split; [|reflexivity]. rewrite !elem_of_app.
    right; right; left. apply list_elem_of_here.
  - (* a segment with a slash *)
    destruct (traverseString_reports parent "TestCase." (elem_name "Folder" i)
                [required; max 127; excludesall "/"] seg) as (fe & Hfe & Hns).
    { simpl. destruct (hasValue _); [|done]. destruct (Nat.leb _ _); [|done].
      by rewrite ContainsAny_slash. }
    exists fe. split; [|by rewrite Hns]. rewrite !elem_of_app. right; right; left.
    assert (traverseSlice parent "TestCase." "Folder"
              [min 1; dive; required; max 127; excludesall "/"]
              (EString <$> TestCase_Folder tc)
            = traverseSlice parent "TestCase." "Folder"
                [dive; required; max 127; excludesall "/"]
                (EString <$> TestCase_Folder tc)) as ->.
    { apply lookup_lt_Some in Hi.
      cbn [traverseSlice]. rewrite length_fmap.
      by destruct (Nat.leb_spec 1 (length (TestCase_Folder tc))); [|lia]. }
    apply (traverseSlice_dive _ _ _ _ _ i (EString seg)); [|done].
    by rewrite list_lookup_fmap, Hi.
  - (* Priority outside the enumeration *)
    destruct (traverseString_reports parent "TestCase." "Priority"
                [required; oneof ["low"; "medium"; "high"]] (TestCase_Priority tc))
      as (fe & Hfe & Hns).
    { simpl. destruct (hasValue _); [|done]. by rewrite bool_decide_eq_false_2. }
    exists fe. split; [|done]. rewrite !elem_of_app. auto.
  - (* an empty tag *)
    exists (field_error "TestCase." (elem_name "Tags" i) required). split; [|done].
    rewrite !elem_of_app. right; right; right; right; left.
    apply (traverseSlice_dive _ _ _ _ _ i (EString "")).
    + by rewrite list_lookup_fmap, Hi.
    + apply list_elem_of_here.
  - (* a requirement with neither title nor URL *)
    destruct (Requirement_Title_required r ("TestCase." +:+ "Requirement" +:+ ".") H1 H2)
      as (fe & Hfe & Hns).
    exists fe. split; [|done]. rewrite !elem_of_app. do 6 right. left.
    by rewrite Hr.
  - (* the URL of the requirement *)
    destruct (Requirement_URL_scheme r ("TestCase." +:+ "Requirement" +:+ ".") H)
      as (fe & Hfe & Hns).
    exists fe. split; [|done]. rewrite !elem_of_app. do 6 right. left.
    by rewrite Hr.
  - (* the URL of a link: its scheme *)
    destruct (Link_URL_rejected l ("TestCase." +:+ elem_name "Links" i +:+ ".")
                (or_intror H)) as (fe & Hfe & Hns).
    destruct (dive_struct validate_Link parent _ _ _ _ _ _ _ Hi Hfe Hns) as [? ?].
    exists fe. split; [|done]. rewrite !elem_of_app. auto 10.
  - (* the URL of a file: its scheme *)
    destruct (File_URL_scheme f ("TestCase." +:+ elem_name "Files" i +:+ ".") H)
      as (fe & Hfe & Hns).
    destruct (dive_struct validate_File parent _ _ _ _ _ _ _ Hi Hfe Hns) as [? ?].
    exists fe. split; [|done]. rewrite !elem_of_app. auto 10.
  - (* a link without title *)
    destruct (Link_Title_required l ("TestCase." +:+ elem_name "Links" i +:+ ".") H)
      as (fe & Hfe & Hns).
    destruct (dive_struct validate_Link parent _ _ _ _ _ _ _ Hi Hfe Hns) as [? ?].
    exists fe. split; [|done]. rewrite !elem_of_app. auto 10.
  - (* a link without URL *)
    destruct (Link_URL_rejected l ("TestCase." +:+ elem_name "Links" i +:+ ".")
                (or_introl H)) as (fe & Hfe & Hns).
    destruct (dive_struct validate_Link parent _ _ _ _ _ _ _ Hi Hfe Hns) as [? ?].
    exists fe. split; [|done]. rewrite !elem_of_app. auto 10.
  - (* a file without name *)
    destruct (File_Name_required f ("TestCase." +:+ elem_name "Files" i +:+ ".") H)
      as (fe & Hfe & Hns).
    destruct (dive_struct validate_File parent _ _ _ _ _ _ _ Hi Hfe Hns) as [? ?].
    exists fe. split; [|done]. rewrite !elem_of_app. auto 10.
  - (* a file with neither id nor URL *)
    destruct (File_ID_required f ("TestCase." +:+ elem_name "Files" i +:+ ".") H1 H2)
      as (fe & Hfe & Hns).
    destruct (dive_struct validate_File parent _ _ _ _ _ _ _ Hi Hfe Hns) as [? ?].
    exists fe. split; [|done]. rewrite !elem_of_app. auto 10.
Qed.

(** A record with a reported field is rejected by both operations, which
    leave the state as it was. *)
Lemma reported_rejected tc fe :
  fe ∈ validate_TestCase tc "TestCase." →
  validateTestCase tc = Some (ValidationErrors (validate_TestCase tc "TestCase.")) ∧
  (∀ q, AddTestCase q tc =
        (Some (Wrap (ValidationErrors (validate_TestCase tc "TestCase."))
                    "test case validation"), q)) ∧
  (∀ q tcs i, tcs !! i = Some tc →
     AddTestCases q tcs = (Some (Wrap (MultiError (batch_errors tcs)) "validation"), q) ∧
     Wrap (ValidationErrors (validate_TestCase tc "TestCase."))
          ("test case " +:+ decimal i) ∈ batch_errors tcs).
Proof.
  intros Hfe.
  assert (¬ valid tc) as Hn.
  { unfold valid. intros E. rewrite E in Hfe. by apply elem_of_nil in Hfe. }
  split_and!.
  - by apply validateTestCase_invalid.
  - intros q. rewrite AddTestCase_spec. by rewrite decide_False.
  - intros q tcs i Hi. split.
    + rewrite AddTestCases_spec. rewrite decide_False; [done|].
      intros Hall. rewrite Forall_forall in Hall.
      apply Hn, Hall. by apply list_elem_of_lookup_2 in Hi.
    + apply elem_of_batch_errors.
      exists i, tc, (ValidationErrors (validate_TestCase tc "TestCase.")).
      split_and!; [done| |done]. by apply validateTestCase_invalid.
Qed.

(* ===================================================================== *)
(** * The claims of the specification                                    *)
(* ===================================================================== *)

Lemma Forall2_fmap_diag {A B} (P : A → B → Prop) (g : A → B) (l : list A) :
  (∀ x, x ∈ l → P x (g x)) → Forall2 P l (g <$> l).
Proof.
  intros H. apply Forall2_fmap_r, Forall_Forall2_diag, Forall_forall. auto.
Qed.

Lemma export_order_steps calls tc :
  tc ∈ export_order (accepted calls) →
  length (TestCase_Steps tc) ≤ max_steps_of (accepted calls).
Proof. rewrite export_order_perm. apply steps_le_max. Qed.

(** C1. For every history of calls, the first row of the exported grid is
    the ten static column names followed by [Step i], [Expected i] for [i]
    from 1 to the maximum step count of the accumulated records; every data
    row has [10 + 2 * maxSteps] cells, and behind its ten static cells a
    record's row holds the record's own step cells and then two empty cells
    per missing step.  The data rows are those of the accumulated records,
    each once. *)
Theorem header_and_row_width calls visit :
  map_range (run calls) visit →
  ∃ rows,
    getCSVRows (run calls) visit =
      Ok ((["Folder"; "Name"; "Legacy ID"; "Draft"; "Priority"; "Tags";
            "Requirements"; "Links"; "Files"; "Preconditions"]
           ++ step_columns (max_steps_of (accepted calls))) :: rows) ∧
    Forall2 (fun tc row =>
               length row = 10 + 2 * max_steps_of (accepted calls) ∧
               drop 10 row =
                 step_cells tc ++
                 replicate (2 * (max_steps_of (accepted calls)
                                 - length (TestCase_Steps tc))) "")
            (export_order (accepted calls)) rows ∧
    export_order (accepted calls) ≡ₚ accepted calls.
Proof.
  intros Hv. eexists. split; [by apply export_grid|].
  split; [|apply export_order_perm].
  apply Forall2_fmap_diag. intros tc Htc. split; [|done].
  by apply length_grid_row, export_order_steps.
Qed.

(** C2. [AddTestCases] is all or nothing.  When some record of the batch
    fails validation, the state is returned as it was and the error wraps
    the list [batch_errors]: one violation per failing record, each under
    the position of its record; when every record is valid, nil is returned
    and every record is accumulated: appended to the list of its folder,
    counted, and its step count taken into the maximum. *)
Theorem AddTestCases_all_or_nothing q tcs :
  AddTestCases q tcs =
    (if decide (Forall valid tcs) then (None, foldl addTCase q tcs)
     else (Some (Wrap (MultiError (batch_errors tcs)) "validation"), q)) ∧
  length (batch_errors tcs) = length (filter (fun tc => ¬ valid tc) tcs) ∧
  (∀ e, e ∈ batch_errors tcs ↔
        ∃ i tc err, tcs !! i = Some tc ∧ validateTestCase tc = Some err ∧
                    e = Wrap err ("test case " +:+ decimal i)) ∧
  (∀ k, map_index (folderTCaseMap (foldl addTCase q tcs)) k =
        map_index (folderTCaseMap q) k ++ filter (fun tc => folder_path tc = k) tcs) ∧
  numTCases (foldl addTCase q tcs) = numTCases q + length tcs ∧
  maxSteps (foldl addTCase q tcs) = maxSteps q `max` max_steps_of tcs.
Proof.
  split_and!.
  - apply AddTestCases_spec.
  - apply length_batch_errors_from.
  - apply elem_of_batch_errors.
  - apply accumulate_index.
  - apply accumulate_numTCases.
  - apply accumulate_maxSteps.
Qed.

(** C3. A record with one of the listed defects is rejected: validation
    returns errors, one of which names the offending field; [AddTestCase]
    returns these errors and leaves the state as it was; [AddTestCases] on a
    batch that holds the record returns the aggregated error, which holds
    the record's errors under its position, and leaves the state as it
    was. *)
Theorem defects_rejected tc ns :
  defect tc ns →
  ∃ fe,
    fe ∈ validate_TestCase tc "TestCase." ∧ Namespace fe = ns ∧
    validateTestCase tc = Some (ValidationErrors (validate_TestCase tc "TestCase.")) ∧
    (∀ q, AddTestCase q tc =
          (Some (Wrap (ValidationErrors (validate_TestCase tc "TestCase."))
                      "test case validation"), q)) ∧
    (∀ q tcs i, tcs !! i = Some tc →
       AddTestCases q tcs =
         (Some (Wrap (MultiError (batch_errors tcs)) "validation"), q) ∧
       Wrap (ValidationErrors (validate_TestCase tc "TestCase."))
            ("test case " +:+ decimal i) ∈ batch_errors tcs).
Proof.
  intros (fe & Hfe & Hns)%defect_reported. exists fe.
  split; [done|]. split; [done|]. by apply (reported_rejected tc fe).
Qed.

(** C4. The data rows are grouped by folder path: they are the
    concatenation, over the strictly ascending list of the folder paths of
    the accumulated records, of the rows of the records with that path, in
    the order in which the records were accumulated.  Each row starts with
    its folder path. *)
Theorem rows_grouped_by_folder calls visit :
  map_range (run calls) visit →
  ∃ folders,
    StronglySorted string_lt folders ∧
    (∀ f, f ∈ folders ↔ ∃ tc, tc ∈ accepted calls ∧ folder_path tc = f) ∧
    getCSVRows (run calls) visit =
      Ok (header_row (run calls) ::
          mjoin ((fun f =>
                    grid_row (max_steps_of (accepted calls))
                      <$> filter (fun tc => folder_path tc = f) (accepted calls))
                   <$> folders)) ∧
    (∀ tc, tc ∈ accepted calls →
       tcase_row (run calls) (folder_path tc) tc
         = Ok (grid_row (max_steps_of (accepted calls)) tc) ∧
       head (grid_row (max_steps_of (accepted calls)) tc) = Some (folder_path tc)).
Proof.
  intros Hv. exists (slices_Sort (remove_dups (folder_path <$> accepted calls))).
  split_and!.
  - apply sorted_nodup_strict;
      [apply sorted_folders_NoDup|apply slices_Sort_sorted].
  - intros f. rewrite sorted_folders_elem, list_elem_of_fmap. naive_solver.
  - rewrite export_grid, header_row_spec, maxSteps_run by done.
    by rewrite export_order_blocks, fmap_blocks.
  - intros tc Htc. split; [|done].
    rewrite tcase_row_total, maxSteps_run. f_equal.
    by apply row_cells_grid_row, steps_le_max.
Qed.

(** C5. In the row of every accumulated record, the Requirements cell (the
    seventh) is [[Title](URL)] when the record has a requirement, whatever
    its title and URL, and empty when it has none; the Links cell (the
    eighth) is the links, each as [[Title](URL)], joined with commas. *)
Theorem requirement_and_links_cells calls visit :
  map_range (run calls) visit →
  ∃ header rows,
    getCSVRows (run calls) visit = Ok (header :: rows) ∧
    export_order (accepted calls) ≡ₚ accepted calls ∧
    Forall2 (fun tc row =>
               row !! 6 = Some (Requirements_cell tc) ∧
               row !! 7 = Some (Links_cell tc))
            (export_order (accepted calls)) rows.
Proof.
  intros Hv. do 2 eexists. split; [by apply export_grid|].
  split; [apply export_order_perm|]. by apply Forall2_fmap_diag.
Qed.

(** C6. In the row of every accumulated record, the Files cell (the ninth)
    is empty when the record has no files, and otherwise the compact JSON
    array of the files in order, each an object with [file_name], [id],
    [url], [mime_type], [size] in this order, [id] and [url] left out when
    empty. *)
Theorem files_cell_json calls visit :
  map_range (run calls) visit →
  ∃ header rows,
    getCSVRows (run calls) visit = Ok (header :: rows) ∧
    export_order (accepted calls) ≡ₚ accepted calls ∧
    Forall2 (fun tc row =>
               row !! 8 =
               Some match TestCase_Files tc with
                    | [] => ""
                    | files =>
                        "[" +:+ String.concat "," (file_object <$> files) +:+ "]"
                    end)
            (export_order (accepted calls)) rows.
Proof.
  intros Hv. do 2 eexists. split; [by apply export_grid|].
  split; [apply export_order_perm|]. by apply Forall2_fmap_diag.
Qed.

(** C7, as the code has it.  One record with title [T1], folder [root] and
    priority [high], every other field at its zero value: the grid is the
    header of the ten static columns and one data row of ten cells, whose
    text has nine commas: [root,T1,,false,high,,,,,]. *)
Theorem single_record_csv visit :
  map_range (run [CallAddTestCase T1_record]) visit →
  getCSVRows (run [CallAddTestCase T1_record]) visit =
    Ok [staticColumns;
        ["root"; "T1"; ""; "false"; "high"; ""; ""; ""; ""; ""]] ∧
  GenerateCSV (run [CallAddTestCase T1_record]) visit =
    Ok ("Folder,Name,Legacy ID,Draft,Priority,Tags,Requirements,Links,Files,Preconditions"
        +:+ LF +:+ "root,T1,,false,high,,,,," +:+ LF).
Proof.
  unfold map_range.
  assert ((map_to_list (folderTCaseMap (run [CallAddTestCase T1_record]))).*1
          = ["root"]) as -> by by vm_compute.
  intros ->%Permutation_singleton_r. split; by vm_compute.
Qed.

(** C8. Two exports of one state return the same text, whatever order the
    runtime takes through the map in each. *)
Theorem export_deterministic q visit1 visit2 :
  map_range q visit1 → map_range q visit2 →
  GenerateCSV q visit1 = GenerateCSV q visit2.
Proof.
  unfold map_range. intros H1 H2.
  unfold GenerateCSV, writeCSV. rewrite !getCSVRows_total, !getFolders_sort.
  rewrite (slices_Sort_proper visit1 visit2); [done|]. by rewrite H1, H2.
Qed.

(** C9. After any history of calls every record stored in the map passed
    validation, and the export succeeds: [getCSVRows] does not return the
    error [json marshal files], and [GenerateCSV] returns a text. *)
Theorem export_never_fails calls visit :
  (∀ f tc, tc ∈ map_index (folderTCaseMap (run calls)) f → valid tc) ∧
  (∀ err, getCSVRows (run calls) visit ≠ Err (Wrap err "json marshal files")) ∧
  ∃ text, GenerateCSV (run calls) visit = Ok text.
Proof.
  split_and!.
  - intros f tc. rewrite run_accepted, accumulate_index. simpl.
    intros [_ Htc]%list_elem_of_filter.
    pose proof (accepted_valid calls) as Hall. rewrite Forall_forall in Hall. auto.
  - by rewrite getCSVRows_total.
  - unfold GenerateCSV, writeCSV. rewrite getCSVRows_total. eauto.
Qed.

(** C10. The export of a new engine succeeds with one row, the header of
    the ten static columns. *)
Theorem empty_export visit :
  map_range NewQASphereCSV visit →
  getCSVRows NewQASphereCSV visit = Ok [staticColumns] ∧
  GenerateCSV NewQASphereCSV visit =
    Ok ("Folder,Name,Legacy ID,Draft,Priority,Tags,Requirements,Links,Files,Preconditions"
        +:+ LF).
Proof.
  unfold map_range. simpl. rewrite map_to_list_empty.
  intros ->%Permutation_nil_r. split; by vm_compute.
Qed.

(* ===================================================================== *)
(** * Further properties of the code                                     *)
(* ===================================================================== *)

(** ** What validation accepts *)

(** Drops the parameters of the package that the goal does not mention. *)
Ltac statement_only :=
  try clear json_string; try clear isURL; try clear strings_ToLower;
  try clear url_Parse.

Lemma hasValue_false s : hasValue s = false ↔ s = "".
Proof.
  statement_only.
  unfold hasValue. rewrite negb_false_iff. apply String.eqb_eq.
Qed.

Lemma eqb_empty_false s : s ≠ "" → String.eqb s "" = false.
Proof. apply String.eqb_neq. Qed.

#[local] Arguments isHttpURL : simpl never.

(** Case analysis on the tests of a tag chain. *)
Ltac chain_cases :=
  repeat match goal with
         | _ => progress cbn
         | H : ?s ≠ "" |- context [hasValue ?s] =>
             rewrite (hasValue_true s H)
         | H : ?s ≠ "" |- context [String.eqb ?s ""] =>
             rewrite (eqb_empty_false s H)
         | |- context [Nat.leb ?a ?b] => destruct (Nat.leb_spec a b)
         | |- context [isHttpURL ?s] => destruct (isHttpURL s)
         | |- context [strings_ContainsAny ?s ?c] =>
             destruct (strings_ContainsAny s c)
         end.

(** The requirement's two tag chains, decided field by field. *)
Lemma validate_Requirement_nil r ns :
  validate_Requirement r ns = [] ↔ Requirement_ok r.
Proof.
  statement_only.
  destruct r as [title url].
  unfold validate_Requirement, Requirement_ok, runes_le. rewrite app_nil.
  cbn [Requirement_Title Requirement_URL].
  destruct (decide (title = "")) as [->|Ht];
    destruct (decide (url = "")) as [->|Hu];
    chain_cases; split; intros; destruct_and?; split_and?;
    try done; try lia; (intuition (congruence || lia)).
Qed.

(** X1. A requirement passes validation exactly when its title or its URL
    is set, the title has at most 255 runes, and the URL, when set, is an
    http(s) URL of at most 255 runes.  A requirement with a title and no
    URL is accepted. *)
Theorem Requirement_accepted r ns :
  validate_Requirement r ns = [] ↔ Requirement_ok r.
Proof. exact (validate_Requirement_nil r ns). Qed.

(** The link's two tag chains, decided field by field. *)
Lemma validate_Link_nil l ns : validate_Link l ns = [] ↔ Link_ok l.
Proof.
  statement_only.
  destruct l as [title url].
  unfold validate_Link, Link_ok, runes_le. rewrite app_nil.
  cbn [Link_Title Link_URL].
  destruct (decide (title = "")) as [->|Ht];
    destruct (decide (url = "")) as [->|Hu];
    chain_cases; split; intros; destruct_and?; split_and?;
    try done; try lia; (intuition (congruence || lia)).
Qed.

(** X2. A link passes validation exactly when its title and its URL are
    both set, each has at most 255 runes, and the URL is an http(s) URL. *)
Theorem Link_accepted l ns : validate_Link l ns = [] ↔ Link_ok l.
Proof. exact (validate_Link_nil l ns). Qed.

(** The file's three tag chains, decided field by field. *)
Lemma validate_File_nil f ns : validate_File f ns = [] ↔ File_ok f.
Proof.
  statement_only.
  destruct f as [name id url mime size].
  unfold validate_File, File_ok. rewrite !app_nil.
  cbn [File_Name File_ID File_URL File_MimeType].
  destruct (decide (name = "")) as [->|Hn];
    destruct (decide (id = "")) as [->|Hi];
    destruct (decide (url = "")) as [->|Hu];
    chain_cases; split; intros; destruct_and?; split_and?;
    try done; (intuition congruence).
Qed.

(** X3. A file passes validation exactly when its name is set, its id or
    its URL is set, and its URL, when set, is an http(s) URL; the length of
    no field is limited, and the MIME type and the size are not looked
    at. *)
Theorem File_accepted f ns : validate_File f ns = [] ↔ File_ok f.
Proof. exact (validate_File_nil f ns). Qed.

(** Whether a chain reports does not depend on the name of the field. *)
Lemma traverseString_nil_name parent ns name ns' name' ct s :
  traverseString parent ns name ct s = [] ↔
  traverseString parent ns' name' ct s = [].
Proof.
  statement_only.
  induction ct as [|t ct IH]; [done|].
  destruct t; cbn [traverseString]; repeat case_match; done.
Qed.

Lemma join_imap_nil {A B} (f : nat → A → list B) (l : list A) :
  mjoin (imap f l) = [] ↔ ∀ i x, l !! i = Some x → f i x = [].
Proof.
  statement_only.
  rewrite join_nil, Forall_lookup. split.
  - intros H i x Hx. apply (H i). by rewrite list_lookup_imap, Hx.
  - intros H i y. rewrite list_lookup_imap.
    destruct (l !! i) as [x|] eqn:Hx; [|done]. intros [= <-]. eauto.
Qed.

Lemma dive_strings_nil parent ns name ct (l : list string) (P : string → Prop) :
  (∀ s, traverseString parent "" "" ct s = [] ↔ P s) →
  traverseSlice parent ns name (dive :: ct) (EString <$> l) = [] ↔ Forall P l.
Proof.
  statement_only.
  intros HP. cbn [traverseSlice]. rewrite join_imap_nil, Forall_lookup.
  split.
  - intros H i s Hs. apply HP.
    apply (traverseString_nil_name parent ns (elem_name name i)).
    apply (H i (EString s)). by rewrite list_lookup_fmap, Hs.
  - intros H i e. rewrite list_lookup_fmap.
    destruct (l !! i) as [s|] eqn:Hs; [|done]. intros [= <-]. cbn.
    apply (traverseString_nil_name parent "" ""), HP. eauto.
Qed.

Lemma dive_structs_nil {A} (v : A → string → list FieldError) parent ns name
    (l : list A) (P : A → Prop) :
  (∀ x ns', v x ns' = [] ↔ P x) →
  traverseSlice parent ns name [dive] (EStruct ∘ v <$> l) = [] ↔ Forall P l.
Proof.
  statement_only.
  intros HP. cbn [traverseSlice]. rewrite join_imap_nil, Forall_lookup.
  split.
  - intros H i x Hx. apply (HP x (ns +:+ elem_name name i +:+ ".")).
    apply (H i (EStruct (v x))). by rewrite list_lookup_fmap, Hx.
  - intros H i e. rewrite list_lookup_fmap.
    destruct (l !! i) as [x|] eqn:Hx; [|done]. intros [= <-]. cbn.
    apply HP. eauto.
Qed.

Lemma segment_chain parent s :
  traverseString parent "" "" [required; max 127; excludesall "/"] s = [] ↔
  s ≠ "" ∧ runes_le 127 s ∧ slash_free s.
Proof.
  statement_only.
  unfold runes_le, slash_free.
  destruct (decide (s = "")) as [->|Hs]; chain_cases;
    split; intros; destruct_and?; split_and?; try done; lia.
Qed.

Lemma tag_chain parent s :
  traverseString parent "" "" [required; max 255] s = [] ↔
  s ≠ "" ∧ runes_le 255 s.
Proof.
  statement_only.
  unfold runes_le.
  destruct (decide (s = "")) as [->|Hs]; chain_cases;
    split; intros; destruct_and?; split_and?; try done; lia.
Qed.

Lemma priority_chain parent ns s :
  traverseString parent ns "Priority"
    [required; oneof ["low"; "medium"; "high"]] s = [] ↔
  s ∈ [PriorityLow; PriorityMedium; PriorityHigh].
Proof.
  statement_only.
  unfold PriorityLow, PriorityMedium, PriorityHigh.
  cbn [traverseString run_tag].
  destruct (decide (s ∈ ["low"; "medium"; "high"])) as [Hin|Hout].
  - rewrite (bool_decide_eq_true_2 _ Hin).
    assert (s ≠ "") as Hs.
    { intros ->. rewrite !elem_of_cons, elem_of_nil in Hin. naive_solver. }
    by rewrite (hasValue_true _ Hs).
  - rewrite (bool_decide_eq_false_2 _ Hout). by destruct (hasValue s).
Qed.

(** The record's tag chains, decided field by field. *)
Lemma validateTestCase_None_iff tc :
  validateTestCase tc = None ↔ well_formed tc.
Proof.
  statement_only.
  rewrite validateTestCase_None. unfold valid, validate_TestCase, well_formed.
  set (parent := [("Title", TestCase_Title tc); ("LegacyID", TestCase_LegacyID tc);
                  ("Priority", TestCase_Priority tc);
                  ("Preconditions", TestCase_Preconditions tc)]).
  rewrite !app_nil.
  rewrite (dive_structs_nil validate_File parent _ _ _ File_ok)
    by (intros; apply validate_File_nil).
  rewrite (dive_structs_nil validate_Link parent _ _ _ Link_ok)
    by (intros; apply validate_Link_nil).
  rewrite (dive_strings_nil parent _ _ _ _ (fun tag => tag ≠ "" ∧ runes_le 255 tag))
    by (intros; apply tag_chain).
  rewrite priority_chain.
  assert (∀ l, traverseSlice parent "TestCase." "Folder"
                 [min 1; dive; required; max 127; excludesall "/"]
                 (EString <$> l) = [] ↔
               l ≠ [] ∧
               Forall (fun seg => seg ≠ "" ∧ runes_le 127 seg ∧ slash_free seg) l)
    as ->.
  { intros [|seg segs].
    - cbn. split; [done|]. by intros [? _].
    - rewrite <- (dive_strings_nil parent "TestCase." "Folder"
                    [required; max 127; excludesall "/"] (seg :: segs))
        by (intros; apply segment_chain).
      cbn [traverseSlice length fmap list_fmap Nat.leb]. naive_solver. }
  assert (traversePtr parent "TestCase." "Requirement"
            (EStruct ∘ validate_Requirement <$> TestCase_Requirement tc) = [] ↔
          ∀ r, TestCase_Requirement tc = Some r → Requirement_ok r) as ->.
  { destruct (TestCase_Requirement tc) as [r|].
    - change (validate_Requirement r ("TestCase." +:+ "Requirement" +:+ ".") = []
              ↔ ∀ r0, Some r = Some r0 → Requirement_ok r0).
      rewrite validate_Requirement_nil. naive_solver.
    - cbn. naive_solver. }
  rewrite (traverseString_nil_name parent "TestCase." "Title" "" "").
  rewrite tag_chain.
  assert (traverseString parent "TestCase." "LegacyID" [max 255]
            (TestCase_LegacyID tc) = [] ↔
          runes_le 255 (TestCase_LegacyID tc)) as ->.
  { unfold runes_le. chain_cases; split; intros; try done; lia. }
  cbn [traverseString]. naive_solver.
Qed.

(** X4. [validateTestCase] returns nil exactly for the well-formed records:
    title set and of at most 255 runes; legacy id of at most 255 runes; at
    least one folder segment, each set, of at most 127 runes and without
    [/]; priority one of low, medium, high; every tag set and of at most 255
    runes; the requirement, the files and the links well formed.  Steps,
    preconditions and the draft flag are not looked at. *)
Theorem validateTestCase_accepts tc :
  validateTestCase tc = None ↔ well_formed tc.
Proof. exact (validateTestCase_None_iff tc). Qed.

(** ** Folder keys *)

Lemma slash_free_cons c s :
  slash_free (String c s) ↔ c ≠ "/"%char ∧ slash_free s.
Proof.
  statement_only.
  unfold slash_free. cbn [strings_ContainsAny contains_byte].
  destruct (decide ("/"%char = c)) as [<-|Hc]; simpl; naive_solver.
Qed.

(** Two texts that agree up to their first [/] and after it. *)
Lemma first_slash a b x y :
  slash_free a → slash_free b →
  a +:+ "/" +:+ x = b +:+ "/" +:+ y → a = b ∧ x = y.
Proof.
  statement_only.
  revert b. induction a as [|c a IH]; intros [|d b] Ha Hb E.
  - change (String "/" x = String "/" y) in E. by injection E as ->.
  - change (String "/" x = String d (b +:+ "/" +:+ y)) in E.
    apply slash_free_cons in Hb as [Hd _]. by injection E as <-.
  - change (String c (a +:+ "/" +:+ x) = String "/" y) in E.
    apply slash_free_cons in Ha as [Hc _]. by injection E as ->.
  - change (String c (a +:+ "/" +:+ x) = String d (b +:+ "/" +:+ y)) in E.
    apply slash_free_cons in Ha as [_ Ha]. apply slash_free_cons in Hb as [_ Hb].
    injection E as -> E. destruct (IH b Ha Hb E) as [-> ->]. done.
Qed.

Lemma slash_free_no_slash a x y : slash_free a → a ≠ x +:+ "/" +:+ y.
Proof.
  statement_only.
  intros Ha ->. unfold slash_free in Ha.
  rewrite ContainsAny_slash in Ha; [done|]. by exists x, y.
Qed.

(** Joining with [/] loses nothing on non-empty lists of segments without
    [/]. *)
Lemma strings_Join_slash_inj l1 l2 :
  l1 ≠ [] → l2 ≠ [] → Forall slash_free l1 → Forall slash_free l2 →
  strings_Join l1 "/" = strings_Join l2 "/" → l1 = l2.
Proof.
  statement_only.
  revert l2. induction l1 as [|a [|a' r] IH]; intros [|b [|b' r']] H1 H2 F1 F2 E;
    try done.
  - change (a = b) in E. by rewrite E.
  - change (a = b +:+ "/" +:+ strings_Join (b' :: r') "/") in E.
    apply Forall_cons in F1 as [Fa _]. by destruct (slash_free_no_slash a b _ Fa E).
  - change (a +:+ "/" +:+ strings_Join (a' :: r) "/" = b) in E.
    apply Forall_cons in F2 as [Fb _].
    by destruct (slash_free_no_slash b a _ Fb (eq_sym E)).
  - change (a +:+ "/" +:+ strings_Join (a' :: r) "/"
            = b +:+ "/" +:+ strings_Join (b' :: r') "/") in E.
    apply Forall_cons in F1 as [Fa F1]. apply Forall_cons in F2 as [Fb F2].
    destruct (first_slash a b _ _ Fa Fb E) as [-> E'].
    f_equal. by apply IH.
Qed.

(** X5. Two records that pass validation are stored under the same folder
    key only if their folder sequences are the same: the tag [excludesall=/]
    keeps the [/]-joined path from merging different folders. *)
Theorem folder_key_injective tc1 tc2 :
  validateTestCase tc1 = None → validateTestCase tc2 = None →
  strings_Join (TestCase_Folder tc1) "/" = strings_Join (TestCase_Folder tc2) "/" →
  TestCase_Folder tc1 = TestCase_Folder tc2.
Proof.
  statement_only.
  intros (_ & _ & _ & N1 & F1 & _)%validateTestCase_None_iff
         (_ & _ & _ & N2 & F2 & _)%validateTestCase_None_iff.
  apply strings_Join_slash_inj; try done.
  - eapply Forall_impl; [exact F1|]. naive_solver.
  - eapply Forall_impl; [exact F2|]. naive_solver.
Qed.

(** ** Adding records *)

Lemma add_each_filter q tcs :
  add_each q tcs = foldl addTCase q (filter valid tcs).
Proof.
  statement_only.
  unfold add_each. revert q. induction tcs as [|tc tcs IH]; intros q; [done|].
  cbn [foldl]. rewrite IH, AddTestCase_spec, filter_cons.
  by destruct (decide (valid tc)).
Qed.

(** X6. Adding the records of a batch one by one with [AddTestCase]
    accumulates the valid records of the batch, in order, and skips the
    others.  [AddTestCases] on the batch reaches the same state when every
    record is valid, and otherwise keeps the state it had. *)
Theorem batch_and_one_by_one q tcs :
  add_each q tcs = foldl addTCase q (filter valid tcs) ∧
  (AddTestCases q tcs).2 =
    (if decide (Forall valid tcs) then add_each q tcs else q).
Proof.
  statement_only.
  split; [apply add_each_filter|].
  rewrite AddTestCases_spec, add_each_filter.
  destruct (decide (Forall valid tcs)) as [Hall|]; [|done].
  simpl. f_equal. symmetry.
  induction Hall as [|tc tcs Hv Hall IH]; [done|].
  rewrite filter_cons, decide_True by done. by f_equal.
Qed.

(** X7. No call removes or reorders what is stored: after [AddTestCase] or
    [AddTestCases] the list of every folder starts with the list it was, and
    neither counter has gone down. *)
Theorem calls_only_append q c k :
  map_index (folderTCaseMap q) k
    `prefix_of` map_index (folderTCaseMap (run_call q c).2) k ∧
  numTCases q ≤ numTCases (run_call q c).2 ∧
  maxSteps q ≤ maxSteps (run_call q c).2.
Proof.
  statement_only.
  rewrite run_call_accepted, accumulate_index, accumulate_numTCases,
    accumulate_maxSteps.
  split_and!; [by eexists|lia..].
Qed.

(** A key of the map was there before or is the path of an added record. *)
Lemma stored_key q log k :
  is_Some (folderTCaseMap (foldl addTCase q log) !! k) →
  is_Some (folderTCaseMap q !! k) ∨ k ∈ folder_path <$> log.
Proof.
  statement_only.
  revert q. induction log as [|tc log IH]; intros q; simpl; [by left|].
  intros [H|H]%IH; [|right; by apply list_elem_of_further].
  unfold addTCase in H. simpl in H. fold (folder_path tc) in H.
  apply lookup_insert_is_Some' in H as [<-|H]; [right; apply list_elem_of_here|by left].
Qed.

Lemma stored_list calls k l :
  folderTCaseMap (run calls) !! k = Some l →
  l = filter (fun tc => folder_path tc = k) (accepted calls) ∧
  k ∈ folder_path <$> accepted calls.
Proof.
  statement_only.
  intros Hl. split.
  - pose proof (accumulate_index NewQASphereCSV (accepted calls) k) as H.
    rewrite <- run_accepted in H. unfold map_index in H at 1.
    rewrite Hl in H. simpl in H. by rewrite H.
  - pose proof (stored_key NewQASphereCSV (accepted calls) k) as H.
    rewrite <- run_accepted in H. destruct H as [[? H]|H]; [by eexists| |done].
    simpl in H. by rewrite lookup_empty in H.
Qed.

(** X8. After any history, a key of the map holds a non-empty list, and
    every record in the list passed validation and has the key as its
    [/]-joined folder path: the cell [f] that [getCSVRows] writes for a
    record is the path of the record. *)
Theorem stored_under_own_path calls k l :
  folderTCaseMap (run calls) !! k = Some l →
  l ≠ [] ∧
  Forall (fun tc => strings_Join (TestCase_Folder tc) "/" = k ∧
                    validateTestCase tc = None) l.
Proof.
  statement_only.
  intros [-> Hk]%stored_list. split.
  - apply list_elem_of_fmap in Hk as (tc & -> & Htc). intros E.
    assert (tc ∈ filter (fun tc0 => folder_path tc0 = folder_path tc) (accepted calls))
      as Hin by by apply list_elem_of_filter.
    rewrite E in Hin. by apply elem_of_nil in Hin.
  - apply Forall_forall. intros tc [Hp Htc]%list_elem_of_filter. split; [done|].
    apply validateTestCase_valid.
    pose proof (accepted_valid calls) as Hall. rewrite Forall_forall in Hall. auto.
Qed.

(** ** Counters *)

(** The records stored in the map, list after list. *)
Lemma stored_records_perm calls :
  mjoin ((map_to_list (folderTCaseMap (run calls))).*2) ≡ₚ accepted calls.
Proof.
  assert (mjoin ((map_to_list (folderTCaseMap (run calls))).*2)
          = blocks folder_path ((map_to_list (folderTCaseMap (run calls))).*1)
              (accepted calls)) as ->.
  { unfold blocks. f_equal. rewrite <- list_fmap_compose.
    apply list_fmap_ext. intros _ [k l] Hkl%list_elem_of_lookup_2.
    apply elem_of_map_to_list in Hkl. by apply stored_list in Hkl as [-> _]. }
  apply blocks_perm; [apply NoDup_fst_map_to_list|].
  intros tc Htc. rewrite run_accepted, accumulate_map_keys, elem_of_remove_dups.
  by apply list_elem_of_fmap_2.
Qed.

(** X9. After any history [numTCases] is the number of records stored in
    the map, and the grid has exactly [numTCases + 1] rows, the capacity
    that [getCSVRows] reserves for it. *)
Theorem numTCases_exact calls visit :
  map_range (run calls) visit →
  numTCases (run calls)
    = length (mjoin ((map_to_list (folderTCaseMap (run calls))).*2)) ∧
  ∃ rows, getCSVRows (run calls) visit = Ok rows ∧
          length rows = numTCases (run calls) + 1.
Proof.
  statement_only.
  intros Hv.
  assert (numTCases (run calls) = length (accepted calls)) as ->.
  { rewrite run_accepted, accumulate_numTCases. done. }
  split; [by rewrite stored_records_perm|].
  eexists. split; [by apply export_grid|].
  cbn [length]. rewrite length_fmap, export_order_perm. lia.
Qed.

(** X10. After any history no accumulated record has more steps than
    [maxSteps], and unless nothing is accumulated some record has exactly
    [maxSteps] steps: the last pair of step columns is never all padding. *)
Theorem maxSteps_attained calls :
  (∀ tc, tc ∈ accepted calls → length (TestCase_Steps tc) ≤ maxSteps (run calls)) ∧
  (accepted calls = [] ∧ maxSteps (run calls) = 0 ∨
   ∃ tc, tc ∈ accepted calls ∧ length (TestCase_Steps tc) = maxSteps (run calls)).
Proof.
  statement_only.
  rewrite maxSteps_run. split; [intros tc; apply steps_le_max|].
  destruct (accepted calls) as [|tc0 log] eqn:E; [by left|right].
  unfold max_steps_of.
  pose proof (max_list_elem_of
                ((fun tc => length (TestCase_Steps tc)) <$> (tc0 :: log))) as H.
  destruct (proj1 (list_elem_of_fmap _ _ _) (H ltac:(done))) as (tc & Htc & Hin).
  by exists tc.
Qed.

(** ** The grid of any state *)

Lemma length_step_columns n : length (step_columns n) = 2 * n.
Proof.
  statement_only.
  unfold step_columns. rewrite (length_join_const _ 2) by done.
  by rewrite length_seq.
Qed.

Lemma length_row_cells n f tc : length (row_cells n f tc) = 10 + 2 * n.
Proof.
  statement_only.
  unfold row_cells. rewrite length_app.
  rewrite (length_join_const _ 2), length_seq; [done|].
  intros i. by destruct (Nat.ltb _ _).
Qed.

(** X11. Whatever the state and the order through the map, the grid of
    [getCSVRows] is rectangular: the header and every data row have
    [len(staticColumns) + 2*maxSteps] cells, the capacity [numCols]. *)
Theorem grid_rectangular q visit :
  ∃ rows, getCSVRows q visit = Ok rows ∧
          Forall (fun row => length row = length staticColumns + 2 * maxSteps q) rows.
Proof.
  statement_only.
  eexists. split; [apply getCSVRows_total|].
  constructor.
  - by rewrite header_row_spec, length_app, length_step_columns.
  - apply Forall_join, Forall_fmap, Forall_forall. intros f _.
    apply Forall_fmap, Forall_forall. intros tc _. apply length_row_cells.
Qed.

(** The folders are the keys of the map, strictly ascending. *)
Lemma getFolders_keys q visit :
  map_range q visit →
  StronglySorted string_lt (getFolders q visit) ∧
  ∀ k, k ∈ getFolders q visit ↔ is_Some (folderTCaseMap q !! k).
Proof.
  statement_only.
  unfold map_range. intros Hv. rewrite getFolders_sort. split.
  - apply sorted_nodup_strict; [|apply slices_Sort_sorted].
    rewrite slices_Sort_perm, Hv. apply NoDup_fst_map_to_list.
  - intros k. rewrite slices_Sort_perm, Hv, list_elem_of_fmap. split.
    + intros ([k' l] & -> & Hkl). apply elem_of_map_to_list in Hkl. by exists l.
    + intros [l Hl]. exists (k, l). split; [done|]. by apply elem_of_map_to_list.
Qed.

(** X12. For every state, [getFolders] returns the keys of the map, each
    once, in strictly ascending byte order, whatever order [range] took. *)
Theorem getFolders_sorted_keys q visit :
  map_range q visit →
  StronglySorted string_lt (getFolders q visit) ∧
  ∀ k, k ∈ getFolders q visit ↔ is_Some (folderTCaseMap q !! k).
Proof. exact (getFolders_keys q visit). Qed.

(** ** Rows *)

Lemma run_app calls more :
  run (calls ++ more) = foldl addTCase (run calls) (accepted more).
Proof.
  statement_only.
  rewrite !run_accepted. unfold accepted. by rewrite fmap_app, join_app, foldl_app.
Qed.

(** X13. Records added later only widen the row of a record accumulated
    before: in the later grid its row is the row it had, followed by two
    empty cells for every step column pair added since. *)
Theorem later_records_only_widen calls more f tc :
  tc ∈ accepted calls →
  ∃ row,
    tcase_row (run calls) f tc = Ok row ∧
    tcase_row (run (calls ++ more)) f tc =
      Ok (row ++ replicate (2 * (maxSteps (run (calls ++ more))
                                 - maxSteps (run calls))) "").
Proof.
  statement_only.
  intros Htc. eexists. split; [apply tcase_row_total|].
  rewrite tcase_row_total. f_equal.
  assert (maxSteps (run calls) ≤ maxSteps (run (calls ++ more))) as Hle.
  { rewrite run_app, accumulate_maxSteps. lia. }
  assert (length (TestCase_Steps tc) ≤ maxSteps (run calls)) as Hsteps.
  { rewrite maxSteps_run. by apply steps_le_max. }
  revert Hle Hsteps.
  generalize (maxSteps (run (calls ++ more))) (maxSteps (run calls)).
  intros n' n Hle Hsteps. unfold row_cells. rewrite <- app_assoc. f_equal.
  replace n' with (n + (n' - n)) at 1 by lia.
  rewrite seq_app, fmap_app, join_app. f_equal.
  rewrite <- join_blank_pairs with (a := 0 + n). f_equal.
  apply list_fmap_ext. intros j i Hi. apply lookup_seq in Hi as [-> Hi].
  by destruct (Nat.ltb_spec (0 + n + j) (length (TestCase_Steps tc))); [lia|].
Qed.

(** X14. In the row of every accumulated record the first six cells are the
    [/]-joined folder path, the title, the legacy id, [true] or [false] for
    the draft flag, the priority and the tags joined with commas, and the
    tenth cell is the preconditions, all as they are in the record. *)
Theorem plain_cells calls visit :
  map_range (run calls) visit →
  ∃ header rows,
    getCSVRows (run calls) visit = Ok (header :: rows) ∧
    Forall2 (fun tc row =>
               take 6 row =
                 [strings_Join (TestCase_Folder tc) "/"; TestCase_Title tc;
                  TestCase_LegacyID tc;
                  if TestCase_Draft tc then "true" else "false";
                  TestCase_Priority tc; String.concat "," (TestCase_Tags tc)] ∧
               row !! 9 = Some (TestCase_Preconditions tc))
            (export_order (accepted calls)) rows.
Proof.
  statement_only.
  intros Hv. do 2 eexists. split; [by apply export_grid|].
  by apply Forall2_fmap_diag.
Qed.

(** ** The header *)

Lemma decimal_inj i j : decimal i = decimal j → i = j.
Proof.
  statement_only.
  unfold decimal, strconv_FormatInt. intros E.
  apply (inj pretty) in E. lia.
Qed.

Lemma elem_of_step_columns n x :
  x ∈ step_columns n →
  ∃ i, 1 ≤ i ≤ n ∧ (x = "Step " +:+ decimal i ∨ x = "Expected " +:+ decimal i).
Proof.
  statement_only.
  unfold step_columns. intros (l & Hx & Hl)%list_elem_of_join.
  apply list_elem_of_fmap in Hl as (i & -> & Hi).
  apply elem_of_seq in Hi. exists i. split; [lia|].
  rewrite !elem_of_cons, elem_of_nil in Hx. naive_solver.
Qed.

Lemma Step_not_Expected x y : "Step " +:+ x ≠ "Expected " +:+ y.
Proof. done. Qed.

Lemma step_columns_S n :
  step_columns (S n) =
  step_columns n ++ ["Step " +:+ decimal (S n); "Expected " +:+ decimal (S n)].
Proof.
  statement_only.
  unfold step_columns. by rewrite seq_S, fmap_app, join_app.
Qed.

Lemma NoDup_step_columns n : NoDup (step_columns n).
Proof.
  statement_only.
  induction n as [|n IH]; [constructor|].
  rewrite step_columns_S. apply NoDup_app. split_and!; [done| |].
  - intros x (i & Hi & Hx)%elem_of_step_columns.
    rewrite !elem_of_cons, elem_of_nil.
    intros [E|[E|[]]]; destruct Hx as [->| ->];
      try (by apply Step_not_Expected in E);
      try (by symmetry in E; apply Step_not_Expected in E);
      apply (inj (String.app _)), decimal_inj in E; lia.
  - apply NoDup_cons. split; [|apply NoDup_singleton].
    rewrite list_elem_of_singleton. apply Step_not_Expected.
Qed.

(** X15. The column names of every header are pairwise distinct: the ten
    static names, and [Step i] and [Expected i] for each [i]. *)
Theorem header_names_distinct q : NoDup (header_row q).
Proof.
  statement_only.
  rewrite header_row_spec. apply NoDup_app. split_and!.
  - apply (bool_decide_unpack (NoDup staticColumns)). by vm_compute.
  - intros x Hx (i & _ & Hi)%elem_of_step_columns. unfold staticColumns in Hx.
    rewrite !elem_of_cons, elem_of_nil in Hx.
    destruct Hi as [->| ->]; naive_solver.
  - apply NoDup_step_columns.
Qed.

(** ** Writing to a file *)

(** X16. After any history, [WriteCSVToFile] returns nil exactly when the
    operating system creates the file and takes all the writes, and then
    the file holds the text that [GenerateCSV] returns.  When the file
    cannot be created, the error is wrapped as [create csv] and the file
    system is as it was; when a write fails, the error is wrapped as
    [write csv]. *)
Theorem file_holds_export calls visit file co wo fs :
  ((WriteCSVToFile (run calls) visit file co wo fs).1 = None ↔
   co = Created ∧ wo = Written) ∧
  ((WriteCSVToFile (run calls) visit file co wo fs).1 = None →
   ∃ text, GenerateCSV (run calls) visit = Ok text ∧
           (WriteCSVToFile (run calls) visit file co wo fs).2 !! file = Some text) ∧
  (∀ err, co = CreateFailed err →
     WriteCSVToFile (run calls) visit file co wo fs
       = (Some (WrapFile err "create csv"), fs)) ∧
  (∀ n err, co = Created → wo = WriteFailed n err →
     (WriteCSVToFile (run calls) visit file co wo fs).1
       = Some (WrapFile err "write csv")).
Proof.
  statement_only.
  unfold WriteCSVToFile, writeCSV_file, GenerateCSV, writeCSV.
  rewrite getCSVRows_total.
  destruct co as [|cerr], wo as [|n werr]; cbn; split_and!;
    try done; try naive_solver.
  intros _. eexists. split; [done|]. by rewrite lookup_insert_eq.
Qed.

(** ** Order of accumulation and order of export *)

Lemma folder_keys_of_groups (log1 log2 : list TestCase) :
  (∀ f, filter (fun tc => folder_path tc = f) log1
        = filter (fun tc => folder_path tc = f) log2) →
  ∀ f, f ∈ folder_path <$> log1 → f ∈ folder_path <$> log2.
Proof.
  statement_only.
  intros Hg f (tc & -> & Htc)%list_elem_of_fmap.
  assert (tc ∈ filter (fun tc0 => folder_path tc0 = folder_path tc) log2) as Hin.
  { rewrite <- Hg. by apply list_elem_of_filter. }
  apply list_elem_of_filter in Hin as [E Hin].
  apply list_elem_of_fmap. by exists tc.
Qed.

Lemma export_order_of_groups (log1 log2 : list TestCase) :
  (∀ f, filter (fun tc => folder_path tc = f) log1
        = filter (fun tc => folder_path tc = f) log2) →
  export_order log1 = export_order log2.
Proof.
  statement_only.
  intros Hg. unfold export_order.
  rewrite (slices_Sort_proper (remove_dups (folder_path <$> log1))
             (remove_dups (folder_path <$> log2))).
  - f_equal. apply list_fmap_ext. intros _ f _. apply Hg.
  - apply NoDup_Permutation; [apply NoDup_remove_dups..|].
    intros f. rewrite !elem_of_remove_dups.
    split; apply folder_keys_of_groups; [done|by intros f'; rewrite Hg].
Qed.

(** X17. The grid depends on the order of accumulation only within each
    folder: two histories whose accumulated records agree folder by folder,
    in order, export the same grid, however the folders are interleaved. *)
Theorem export_ignores_interleaving calls1 calls2 visit1 visit2 :
  (∀ f, filter (fun tc => strings_Join (TestCase_Folder tc) "/" = f) (accepted calls1)
        = filter (fun tc => strings_Join (TestCase_Folder tc) "/" = f) (accepted calls2)) →
  map_range (run calls1) visit1 → map_range (run calls2) visit2 →
  getCSVRows (run calls1) visit1 = getCSVRows (run calls2) visit2.
Proof.
  statement_only.
  intros Hg H1 H2. rewrite !export_grid by done.
  pose proof (export_order_of_groups _ _ Hg) as Ho.
  assert (max_steps_of (accepted calls1) = max_steps_of (accepted calls2)) as ->.
  { unfold max_steps_of, max_list.
    apply max_list_with_Permutation_proper, fmap_Permutation.
    by rewrite <- (export_order_perm (accepted calls1)), Ho, export_order_perm. }
  by rewrite Ho.
Qed.

(** X18. Records added later only append columns: the header of the earlier
    grid is a prefix of the header of the later one. *)
Theorem header_only_grows calls more :
  header_row (run calls) `prefix_of` header_row (run (calls ++ more)).
Proof.
  statement_only.
  rewrite !header_row_spec.
  assert (maxSteps (run calls) ≤ maxSteps (run (calls ++ more))) as Hle.
  { rewrite run_app, accumulate_maxSteps. lia. }
  revert Hle. generalize (maxSteps (run (calls ++ more))) (maxSteps (run calls)).
  intros n' n Hle. apply prefix_app.
  induction Hle as [|m _ IH]; [done|].
  rewrite step_columns_S. by apply prefix_app_r.
Qed.

(** A smaller element of a strictly ascending list stands before a greater. *)
Lemma sorted_before l x y :
  StronglySorted string_lt l → x ∈ l → y ∈ l → string_lt x y →
  ∃ l1 l2 l3, l = l1 ++ x :: l2 ++ y :: l3.
Proof.
  statement_only.
  intros Hs Hx Hy Hxy.
  apply list_elem_of_split in Hx as (l1 & r & ->).
  apply StronglySorted_app in Hs as (Hcross & _ & Hr).
  apply StronglySorted_cons in Hr as [Hhead Hr'].
  rewrite elem_of_app, elem_of_cons in Hy. destruct Hy as [Hy|[->|Hy]].
  - assert (string_lt y x) as Hyx by (apply Hcross; [done|apply list_elem_of_here]).
    pose proof (string_lt_trans _ _ _ Hxy Hyx) as Hxx.
    unfold string_lt in Hxx. by rewrite string_cmp_refl in Hxx.
  - unfold string_lt in Hxy. by rewrite string_cmp_refl in Hxy.
  - apply list_elem_of_split in Hy as (l2 & l3 & ->). by exists l1, l2, l3.
Qed.

(** A text is smaller than each of its proper extensions. *)
Lemma string_lt_extension a c b : string_lt a (a +:+ String c b).
Proof.
  statement_only.
  unfold string_lt. induction a as [|x a IH]; [done|].
  change (String x a +:+ String c b) with (String x (a +:+ String c b)).
  cbn [string_cmp]. by rewrite N.compare_refl.
Qed.

(** X19. A folder is exported before its sub-folders: when the map holds
    the keys [p] and [p/s], [getFolders] lists [p] before [p/s]. *)
Theorem parent_folder_first q visit p s :
  map_range q visit →
  is_Some (folderTCaseMap q !! p) →
  is_Some (folderTCaseMap q !! (p +:+ "/" +:+ s)) →
  ∃ l1 l2 l3, getFolders q visit = l1 ++ p :: l2 ++ (p +:+ "/" +:+ s) :: l3.
Proof.
  statement_only.
  intros Hv Hp Hs.
  destruct (getFolders_keys q visit Hv) as [Hsorted Hkeys].
  apply sorted_before; [done|by apply Hkeys..|].
  apply string_lt_extension.
Qed.
End Package.

(* ===================================================================== *)
(** * The theorems at concrete records                                   *)
(* ===================================================================== *)

(** The package over the stand-ins. *)
Abbreviation run0 := (run simple_url_Parse ascii_ToLower simple_isURL).
Abbreviation accepted0 := (accepted simple_url_Parse ascii_ToLower simple_isURL).
Abbreviation getCSVRows0 := (getCSVRows ascii_json_string).
Abbreviation GenerateCSV0 := (GenerateCSV ascii_json_string).

(** A decidable proposition that evaluates to true. *)
Ltac by_evaluation :=
  match goal with |- ?P => apply (bool_decide_unpack P) end; vm_compute; exact I.

(** The two-step scenario: the header has two step column pairs, and the
    one-step record's row ends in two empty cells. *)
Lemma header_and_row_width_witness :
  map_range (run0 [CallAddTestCases steps_scenario]) ["root"] ∧
  ∃ rows,
    getCSVRows0 (run0 [CallAddTestCases steps_scenario]) ["root"] =
      Ok ((["Folder"; "Name"; "Legacy ID"; "Draft"; "Priority"; "Tags";
            "Requirements"; "Links"; "Files"; "Preconditions"]
           ++ step_columns (max_steps_of (accepted0 [CallAddTestCases steps_scenario])))
          :: rows) ∧
    Forall2 (fun tc row =>
               length row
                 = 10 + 2 * max_steps_of (accepted0 [CallAddTestCases steps_scenario]) ∧
               drop 10 row =
                 step_cells tc ++
                 replicate (2 * (max_steps_of (accepted0 [CallAddTestCases steps_scenario])
                                 - length (TestCase_Steps tc))) "")
            (export_order (accepted0 [CallAddTestCases steps_scenario])) rows ∧
    export_order (accepted0 [CallAddTestCases steps_scenario])
      ≡ₚ accepted0 [CallAddTestCases steps_scenario].
Proof.
  assert (map_range (run0 [CallAddTestCases steps_scenario]) ["root"]) as H
    by by_evaluation.
  split; [exact H|].
  exact (header_and_row_width simple_url_Parse ascii_ToLower simple_isURL
           ascii_json_string [CallAddTestCases steps_scenario] ["root"] H).
Defined.

Lemma ftp_is_no_http_scheme :
  non_http_scheme simple_url_Parse ascii_ToLower "ftp://req1".
Proof.
  split; [done|]. intros u Hu. vm_compute in Hu.
  injection Hu as <-. by split.
Qed.

(** A requirement whose URL has the scheme [ftp] is rejected on its URL. *)
Lemma defects_rejected_witness :
  defect simple_url_Parse ascii_ToLower ftp_requirement "TestCase.Requirement.URL" ∧
  ∃ fe,
    fe ∈ validate_TestCase simple_url_Parse ascii_ToLower simple_isURL
           ftp_requirement "TestCase." ∧
    Namespace fe = "TestCase.Requirement.URL" ∧
    validateTestCase simple_url_Parse ascii_ToLower simple_isURL ftp_requirement =
      Some (ValidationErrors
              (validate_TestCase simple_url_Parse ascii_ToLower simple_isURL
                 ftp_requirement "TestCase.")) ∧
    (∀ q, AddTestCase simple_url_Parse ascii_ToLower simple_isURL q ftp_requirement =
          (Some (Wrap (ValidationErrors
                         (validate_TestCase simple_url_Parse ascii_ToLower simple_isURL
                            ftp_requirement "TestCase."))
                      "test case validation"), q)) ∧
    (∀ q tcs i, tcs !! i = Some ftp_requirement →
       AddTestCases simple_url_Parse ascii_ToLower simple_isURL q tcs =
         (Some (Wrap (MultiError
                        (batch_errors simple_url_Parse ascii_ToLower simple_isURL tcs))
                     "validation"), q) ∧
       Wrap (ValidationErrors
               (validate_TestCase simple_url_Parse ascii_ToLower simple_isURL
                  ftp_requirement "TestCase."))
            ("test case " +:+ decimal i)
         ∈ batch_errors simple_url_Parse ascii_ToLower simple_isURL tcs).
Proof.
  assert (defect simple_url_Parse ascii_ToLower ftp_requirement
            "TestCase.Requirement.URL") as H.
  { apply (requirement_scheme _ _ _ (mkRequirement "" "ftp://req1")); [done|].
    apply ftp_is_no_http_scheme. }
  split; [exact H|].
  exact (defects_rejected simple_url_Parse ascii_ToLower simple_isURL
           ftp_requirement "TestCase.Requirement.URL" H).
Defined.

(** The folder scenario: [root/child] is added first and exported last. *)
Lemma rows_grouped_by_folder_witness :
  map_range (run0 (CallAddTestCase <$> folders_scenario)) ["root/child"; "root"] ∧
  ∃ folders,
    StronglySorted string_lt folders ∧
    (∀ f, f ∈ folders ↔
          ∃ tc, tc ∈ accepted0 (CallAddTestCase <$> folders_scenario) ∧
                folder_path tc = f) ∧
    getCSVRows0 (run0 (CallAddTestCase <$> folders_scenario)) ["root/child"; "root"] =
      Ok (header_row (run0 (CallAddTestCase <$> folders_scenario)) ::
          mjoin ((fun f =>
                    grid_row ascii_json_string
                      (max_steps_of (accepted0 (CallAddTestCase <$> folders_scenario)))
                      <$> filter (fun tc => folder_path tc = f)
                            (accepted0 (CallAddTestCase <$> folders_scenario)))
                   <$> folders)) ∧
    (∀ tc, tc ∈ accepted0 (CallAddTestCase <$> folders_scenario) →
       tcase_row ascii_json_string (run0 (CallAddTestCase <$> folders_scenario))
         (folder_path tc) tc
         = Ok (grid_row ascii_json_string
                 (max_steps_of (accepted0 (CallAddTestCase <$> folders_scenario))) tc) ∧
       head (grid_row ascii_json_string
               (max_steps_of (accepted0 (CallAddTestCase <$> folders_scenario))) tc)
         = Some (folder_path tc)).
Proof.
  assert (map_range (run0 (CallAddTestCase <$> folders_scenario))
            ["root/child"; "root"]) as H by by_evaluation.
  split; [exact H|].
  exact (rows_grouped_by_folder simple_url_Parse ascii_ToLower simple_isURL
           ascii_json_string (CallAddTestCase <$> folders_scenario)
           ["root/child"; "root"] H).
Defined.

(** The records of the repository's test: requirement and links cells. *)
Lemma requirement_and_links_cells_witness :
  map_range (run0 [CallAddTestCases successTestCases]) ["root"; "root/child"] ∧
  ∃ header rows,
    getCSVRows0 (run0 [CallAddTestCases successTestCases]) ["root"; "root/child"]
      = Ok (header :: rows) ∧
    export_order (accepted0 [CallAddTestCases successTestCases])
      ≡ₚ accepted0 [CallAddTestCases successTestCases] ∧
    Forall2 (fun tc row =>
               row !! 6 = Some (Requirements_cell tc) ∧
               row !! 7 = Some (Links_cell tc))
            (export_order (accepted0 [CallAddTestCases successTestCases])) rows.
Proof.
  assert (map_range (run0 [CallAddTestCases successTestCases])
            ["root"; "root/child"]) as H by by_evaluation.
  split; [exact H|].
  exact (requirement_and_links_cells simple_url_Parse ascii_ToLower simple_isURL
           ascii_json_string [CallAddTestCases successTestCases]
           ["root"; "root/child"] H).
Defined.

(** The records of the repository's test: files cells. *)
Lemma files_cell_json_witness :
  map_range (run0 [CallAddTestCases successTestCases]) ["root/child"; "root"] ∧
  ∃ header rows,
    getCSVRows0 (run0 [CallAddTestCases successTestCases]) ["root/child"; "root"]
      = Ok (header :: rows) ∧
    export_order (accepted0 [CallAddTestCases successTestCases])
      ≡ₚ accepted0 [CallAddTestCases successTestCases] ∧
    Forall2 (fun tc row =>
               row !! 8 =
               Some match TestCase_Files tc with
                    | [] => ""
                    | files =>
                        "[" +:+ String.concat ","
                                  (file_object ascii_json_string <$> files) +:+ "]"
                    end)
            (export_order (accepted0 [CallAddTestCases successTestCases])) rows.
Proof.
  assert (map_range (run0 [CallAddTestCases successTestCases])
            ["root/child"; "root"]) as H by by_evaluation.
  split; [exact H|].
  exact (files_cell_json simple_url_Parse ascii_ToLower simple_isURL
           ascii_json_string [CallAddTestCases successTestCases]
           ["root/child"; "root"] H).
Defined.

(** The scenario of one record, the map visited in its only order. *)
Lemma single_record_csv_witness :
  map_range (run0 [CallAddTestCase T1_record]) ["root"] ∧
  getCSVRows0 (run0 [CallAddTestCase T1_record]) ["root"] =
    Ok [staticColumns;
        ["root"; "T1"; ""; "false"; "high"; ""; ""; ""; ""; ""]] ∧
  GenerateCSV0 (run0 [CallAddTestCase T1_record]) ["root"] =
    Ok ("Folder,Name,Legacy ID,Draft,Priority,Tags,Requirements,Links,Files,Preconditions"
        +:+ LF +:+ "root,T1,,false,high,,,,," +:+ LF).
Proof.
  assert (map_range (run0 [CallAddTestCase T1_record]) ["root"]) as H
    by by_evaluation.
  split; [exact H|].
  exact (single_record_csv simple_url_Parse ascii_ToLower simple_isURL
           ascii_json_string ["root"] H).
Defined.

(** C7 as the specification words it: the text [root,T1,,false,high,,,,,,]
    has ten commas, that is eleven cells; it is not the data row of the
    export, which has ten cells. *)
Lemma single_record_csv_claimed_row_wrong :
  ¬ ∃ text header,
      GenerateCSV0 (run0 [CallAddTestCase T1_record]) ["root"] = Ok text ∧
      lines text = [header; "root,T1,,false,high,,,,,,"].
Proof.
  intros (text & header & Htext & Hlines).
  vm_compute in Htext. injection Htext as <-.
  vm_compute in Hlines. discriminate Hlines.
Qed.

(** Two orders through a map of two folders. *)
Lemma export_deterministic_witness :
  map_range (run0 (CallAddTestCase <$> folders_scenario)) ["root/child"; "root"] ∧
  map_range (run0 (CallAddTestCase <$> folders_scenario)) ["root"; "root/child"] ∧
  GenerateCSV0 (run0 (CallAddTestCase <$> folders_scenario)) ["root/child"; "root"]
  = GenerateCSV0 (run0 (CallAddTestCase <$> folders_scenario)) ["root"; "root/child"].
Proof.
  assert (map_range (run0 (CallAddTestCase <$> folders_scenario))
            ["root/child"; "root"]) as H1 by by_evaluation.
  assert (map_range (run0 (CallAddTestCase <$> folders_scenario))
            ["root"; "root/child"]) as H2 by by_evaluation.
  split; [exact H1|]. split; [exact H2|].
  exact (export_deterministic ascii_json_string _ _ _ H1 H2).
Defined.

(** The empty map is visited in no step. *)
Lemma empty_export_witness :
  map_range NewQASphereCSV [] ∧
  getCSVRows0 NewQASphereCSV [] = Ok [staticColumns] ∧
  GenerateCSV0 NewQASphereCSV [] =
    Ok ("Folder,Name,Legacy ID,Draft,Priority,Tags,Requirements,Links,Files,Preconditions"
        +:+ LF).
Proof.
  assert (map_range NewQASphereCSV []) as H by by_evaluation.
  split; [exact H|].
  exact (empty_export ascii_json_string [] H).
Defined.

(** ** The tests of the repository, run on the model *)

(** [TestGenerateCSVSuccess]: the four records, added one by one, export to
    the expected text. *)
Example TestGenerateCSVSuccess :
  GenerateCSV0 (run0 (CallAddTestCase <$> successTestCases)) ["root/child"; "root"]
  = Ok successTestCasesCSV.
Proof. vm_compute. reflexivity. Qed.

(** [TestWriteCSVMultipleTCasesSuccess]: added as one batch, the records are
    accepted and export to the same text. *)
Example TestWriteCSVMultipleTCasesSuccess :
  (AddTestCases simple_url_Parse ascii_ToLower simple_isURL
     NewQASphereCSV successTestCases).1 = None ∧
  GenerateCSV0 (run0 [CallAddTestCases successTestCases]) ["root"; "root/child"]
  = Ok successTestCasesCSV.
Proof. split; vm_compute; reflexivity. Qed.

(** [TestFailureTestCases]: each of the seventeen records is rejected. *)
Example TestFailureTestCases :
  Forall (fun tc =>
            (AddTestCase simple_url_Parse ascii_ToLower simple_isURL
               NewQASphereCSV tc).1 ≠ None)
         failureTestCases.
Proof. repeat constructor; vm_compute; discriminate. Qed.

(* ===================================================================== *)
(** * The further properties at concrete records                         *)
(* ===================================================================== *)

Abbreviation validateTestCase0 :=
  (validateTestCase simple_url_Parse ascii_ToLower simple_isURL).

(** Two records of the folder [root/child]. *)
Lemma folder_key_injective_witness :
  validateTestCase0 (with_Folder (minimal "in child") ["root"; "child"]) = None ∧
  validateTestCase0 (with_Folder (minimal "also in child") ["root"; "child"]) = None ∧
  strings_Join (TestCase_Folder (with_Folder (minimal "in child") ["root"; "child"])) "/"
  = strings_Join
      (TestCase_Folder (with_Folder (minimal "also in child") ["root"; "child"])) "/" ∧
  TestCase_Folder (with_Folder (minimal "in child") ["root"; "child"])
  = TestCase_Folder (with_Folder (minimal "also in child") ["root"; "child"]).
Proof.
  assert (validateTestCase0 (with_Folder (minimal "in child") ["root"; "child"])
          = None) as H1 by (vm_compute; reflexivity).
  assert (validateTestCase0 (with_Folder (minimal "also in child") ["root"; "child"])
          = None) as H2 by (vm_compute; reflexivity).
  assert (strings_Join
            (TestCase_Folder (with_Folder (minimal "in child") ["root"; "child"])) "/"
          = strings_Join
              (TestCase_Folder
                 (with_Folder (minimal "also in child") ["root"; "child"])) "/") as H3
    by reflexivity.
  split_and!; [exact H1|exact H2|exact H3|].
  exact (folder_key_injective simple_url_Parse ascii_ToLower simple_isURL _ _ H1 H2 H3).
Defined.

(** The folder scenario: the list under [root]. *)
Lemma stored_under_own_path_witness :
  folderTCaseMap (run0 [CallAddTestCases folders_scenario]) !! "root"
  = Some [minimal "in root"] ∧
  [minimal "in root"] ≠ [] ∧
  Forall (fun tc => strings_Join (TestCase_Folder tc) "/" = "root" ∧
                    validateTestCase0 tc = None) [minimal "in root"].
Proof.
  assert (folderTCaseMap (run0 [CallAddTestCases folders_scenario]) !! "root"
          = Some [minimal "in root"]) as H by (vm_compute; reflexivity).
  split; [exact H|].
  exact (stored_under_own_path simple_url_Parse ascii_ToLower simple_isURL
           [CallAddTestCases folders_scenario] "root" [minimal "in root"] H).
Defined.

(** The two-step scenario: two records, three rows. *)
Lemma numTCases_exact_witness :
  map_range (run0 [CallAddTestCases steps_scenario]) ["root"] ∧
  numTCases (run0 [CallAddTestCases steps_scenario])
    = length (mjoin ((map_to_list
                        (folderTCaseMap (run0 [CallAddTestCases steps_scenario]))).*2)) ∧
  ∃ rows, getCSVRows0 (run0 [CallAddTestCases steps_scenario]) ["root"] = Ok rows ∧
          length rows = numTCases (run0 [CallAddTestCases steps_scenario]) + 1.
Proof.
  assert (map_range (run0 [CallAddTestCases steps_scenario]) ["root"]) as H
    by by_evaluation.
  split; [exact H|].
  exact (numTCases_exact simple_url_Parse ascii_ToLower simple_isURL
           ascii_json_string [CallAddTestCases steps_scenario] ["root"] H).
Defined.

(** The folder scenario, the map visited child first. *)
Lemma getFolders_sorted_keys_witness :
  map_range (run0 [CallAddTestCases folders_scenario]) ["root/child"; "root"] ∧
  StronglySorted string_lt
    (getFolders (run0 [CallAddTestCases folders_scenario]) ["root/child"; "root"]) ∧
  ∀ k, k ∈ getFolders (run0 [CallAddTestCases folders_scenario]) ["root/child"; "root"]
       ↔ is_Some (folderTCaseMap (run0 [CallAddTestCases folders_scenario]) !! k).
Proof.
  assert (map_range (run0 [CallAddTestCases folders_scenario])
            ["root/child"; "root"]) as H by by_evaluation.
  split; [exact H|].
  exact (getFolders_sorted_keys (run0 [CallAddTestCases folders_scenario])
           ["root/child"; "root"] H).
Defined.

(** A record of one step, and a record of two steps added after it. *)
Lemma later_records_only_widen_witness :
  with_Steps (minimal "one step") [mkStep "a1" "e1"]
    ∈ accepted0 [CallAddTestCase (with_Steps (minimal "one step") [mkStep "a1" "e1"])] ∧
  ∃ row,
    tcase_row ascii_json_string
      (run0 [CallAddTestCase (with_Steps (minimal "one step") [mkStep "a1" "e1"])])
      "root" (with_Steps (minimal "one step") [mkStep "a1" "e1"]) = Ok row ∧
    tcase_row ascii_json_string
      (run0 ([CallAddTestCase (with_Steps (minimal "one step") [mkStep "a1" "e1"])]
             ++ [CallAddTestCase
                   (with_Steps (minimal "two steps")
                      [mkStep "a1" "e1"; mkStep "a2" "e2"])]))
      "root" (with_Steps (minimal "one step") [mkStep "a1" "e1"])
    = Ok (row ++
          replicate
            (2 * (maxSteps
                    (run0 ([CallAddTestCase
                              (with_Steps (minimal "one step") [mkStep "a1" "e1"])]
                           ++ [CallAddTestCase
                                 (with_Steps (minimal "two steps")
                                    [mkStep "a1" "e1"; mkStep "a2" "e2"])]))
                  - maxSteps
                      (run0 [CallAddTestCase
                               (with_Steps (minimal "one step") [mkStep "a1" "e1"])])))
            "").
Proof.
  assert (with_Steps (minimal "one step") [mkStep "a1" "e1"]
            ∈ accepted0 [CallAddTestCase
                           (with_Steps (minimal "one step") [mkStep "a1" "e1"])]) as H
    by (vm_compute; apply list_elem_of_here).
  split; [exact H|].
  exact (later_records_only_widen simple_url_Parse ascii_ToLower simple_isURL
           ascii_json_string _ _ "root" _ H).
Defined.

(** The records of the repository's test: the cells copied from the record. *)
Lemma plain_cells_witness :
  map_range (run0 [CallAddTestCases successTestCases]) ["root/child"; "root"] ∧
  ∃ header rows,
    getCSVRows0 (run0 [CallAddTestCases successTestCases]) ["root/child"; "root"]
      = Ok (header :: rows) ∧
    Forall2 (fun tc row =>
               take 6 row =
                 [strings_Join (TestCase_Folder tc) "/"; TestCase_Title tc;
                  TestCase_LegacyID tc;
                  if TestCase_Draft tc then "true" else "false";
                  TestCase_Priority tc; String.concat "," (TestCase_Tags tc)] ∧
               row !! 9 = Some (TestCase_Preconditions tc))
            (export_order (accepted0 [CallAddTestCases successTestCases])) rows.
Proof.
  assert (map_range (run0 [CallAddTestCases successTestCases])
            ["root/child"; "root"]) as H by by_evaluation.
  split; [exact H|].
  exact (plain_cells simple_url_Parse ascii_ToLower simple_isURL
           ascii_json_string [CallAddTestCases successTestCases]
           ["root/child"; "root"] H).
Defined.

(** The folder scenario, added as a batch and added record by record in the
    other order. *)
Lemma export_ignores_interleaving_witness :
  (∀ f, filter (fun tc => strings_Join (TestCase_Folder tc) "/" = f)
          (accepted0 [CallAddTestCases folders_scenario])
        = filter (fun tc => strings_Join (TestCase_Folder tc) "/" = f)
            (accepted0 (CallAddTestCase <$> reverse folders_scenario))) ∧
  map_range (run0 [CallAddTestCases folders_scenario]) ["root/child"; "root"] ∧
  map_range (run0 (CallAddTestCase <$> reverse folders_scenario))
    ["root"; "root/child"] ∧
  getCSVRows0 (run0 [CallAddTestCases folders_scenario]) ["root/child"; "root"]
  = getCSVRows0 (run0 (CallAddTestCase <$> reverse folders_scenario))
      ["root"; "root/child"].
Proof.
  assert (∀ f, filter (fun tc => strings_Join (TestCase_Folder tc) "/" = f)
                 (accepted0 [CallAddTestCases folders_scenario])
               = filter (fun tc => strings_Join (TestCase_Folder tc) "/" = f)
                   (accepted0 (CallAddTestCase <$> reverse folders_scenario))) as Hg.
  { intros f.
    assert (accepted0 [CallAddTestCases folders_scenario] = folders_scenario) as ->
      by (vm_compute; reflexivity).
    assert (accepted0 (CallAddTestCase <$> reverse folders_scenario)
            = reverse folders_scenario) as -> by (vm_compute; reflexivity).
    unfold folders_scenario, reverse. simpl rev_append.
    rewrite !filter_cons, !filter_nil.
    change (strings_Join (TestCase_Folder
              (with_Folder (minimal "in child") ["root"; "child"])) "/")
      with "root/child".
    change (strings_Join (TestCase_Folder (minimal "in root")) "/") with "root".
    repeat case_decide; congruence. }
  assert (map_range (run0 [CallAddTestCases folders_scenario])
            ["root/child"; "root"]) as H1 by by_evaluation.
  assert (map_range (run0 (CallAddTestCase <$> reverse folders_scenario))
            ["root"; "root/child"]) as H2 by by_evaluation.
  split_and!; [exact Hg|exact H1|exact H2|].
  exact (export_ignores_interleaving simple_url_Parse ascii_ToLower simple_isURL
           ascii_json_string _ _ _ _ Hg H1 H2).
Defined.

(** The folder scenario: [root] stands before [root/child]. *)
Lemma parent_folder_first_witness :
  map_range (run0 [CallAddTestCases folders_scenario]) ["root/child"; "root"] ∧
  is_Some (folderTCaseMap (run0 [CallAddTestCases folders_scenario]) !! "root") ∧
  is_Some (folderTCaseMap (run0 [CallAddTestCases folders_scenario])
             !! ("root" +:+ "/" +:+ "child")) ∧
  ∃ l1 l2 l3,
    getFolders (run0 [CallAddTestCases folders_scenario]) ["root/child"; "root"]
    = l1 ++ "root" :: l2 ++ ("root" +:+ "/" +:+ "child") :: l3.
Proof.
  assert (map_range (run0 [CallAddTestCases folders_scenario])
            ["root/child"; "root"]) as H by by_evaluation.
  assert (is_Some (folderTCaseMap (run0 [CallAddTestCases folders_scenario])
                     !! "root")) as Hp by by_evaluation.
  assert (is_Some (folderTCaseMap (run0 [CallAddTestCases folders_scenario])
                     !! ("root" +:+ "/" +:+ "child"))) as Hs by by_evaluation.
  split_and!; [exact H|exact Hp|exact Hs|].
  exact (parent_folder_first (run0 [CallAddTestCases folders_scenario])
           ["root/child"; "root"] "root" "child" H Hp Hs).
Defined.
